(** * Document Analyzer: the document store and the text analyzer of [main.py]

    A shallow embedding of [DocumentStore], [TextAnalyzer] and the two tool
    functions that look a document up, followed by the properties of the
    specification that concern them.

    Python values are modelled as follows.
    - [str] is a sequence of code points; the embedding covers the code points
      U+0000..U+00FF, one [ascii] each, with Python's classification of them
      (whitespace, the regex class [\w], [str.lower]).
    - [int] is [Z]; [float] is the binary64 [float] of the kernel, so that
      every arithmetic step rounds exactly as CPython's does.
    - A [dict] is an association list in insertion order.
    - An operation that may raise returns a [result]. *)

From Stdlib Require Import ZArith List Bool Ascii Floats Lia Permutation Sorted FinFun.
From Stdlib Require Import DecimalString DecimalZ.
From Stdlib Require String.
Import String.StringSyntax Ascii.AsciiSyntax.
Import ListNotations.

Set Warnings "-inexact-float".
Open Scope Z_scope.

(** ** Python strings *)

Module Py.

Definition str := list ascii.

Definition ord (c : ascii) : N := N_of_ascii c.

Definition in_range (lo hi : N) (c : ascii) : bool :=
  ((lo <=? ord c) && (ord c <=? hi))%N.

Definition chr_eqb (a b : ascii) : bool := Ascii.eqb a b.

Fixpoint str_eqb (a b : str) : bool :=
  match a, b with
  | [], [] => true
  | x :: a', y :: b' => chr_eqb x y && str_eqb a' b'
  | _, _ => false
  end.

(** [str.isspace], which is also the regex class [\s] and the separator of
    [str.split()] and [str.strip()]: TAB..CR, FS..US, space, NEL and NBSP. *)
Definition isspace (c : ascii) : bool :=
  in_range 9 13 c || in_range 28 32 c || (ord c =? 133)%N || (ord c =? 160)%N.

(** [str.isalnum] on U+0000..U+00FF: digits, letters, the superscript digits,
    the vulgar fractions, the ordinal indicators and the micro sign. *)
Definition isalnum (c : ascii) : bool :=
  in_range 48 57 c || in_range 65 90 c || in_range 97 122 c
  || (ord c =? 170)%N || in_range 178 179 c || (ord c =? 181)%N
  || in_range 185 186 c || in_range 188 190 c
  || in_range 192 214 c || in_range 216 246 c || in_range 248 255 c.

(** The regex class [\w]: alphanumeric or underscore. *)
Definition isword (c : ascii) : bool := isalnum c || (ord c =? 95)%N.

Definition isupper (c : ascii) : bool :=
  in_range 65 90 c || in_range 192 214 c || in_range 216 222 c.

Definition lower_char (c : ascii) : ascii :=
  if isupper c then ascii_of_N (ord c + 32) else c.

(** [s.lower()] *)
Definition lower (s : str) : str := map lower_char s.

(** Puts one more character in front of the first piece of a split. *)
Definition cons_head (c : ascii) (pieces : list str) : list str :=
  match pieces with
  | p :: ps => (c :: p) :: ps
  | [] => [[c]]
  end.

(** [s.split()]: the maximal runs of non-whitespace characters. *)
Fixpoint split (s : str) : list str :=
  match s with
  | [] => []
  | c :: s' =>
      let ws := split s' in
      if isspace c then ws
      else match s' with
           | c' :: _ => if isspace c' then [c] :: ws else cons_head c ws
           | [] => [c] :: ws
           end
  end.

Fixpoint lstrip (s : str) : str :=
  match s with
  | c :: s' => if isspace c then lstrip s' else s
  | [] => []
  end.

(** [s.strip()] *)
Definition strip (s : str) : str := rev (lstrip (rev (lstrip s))).

(** [s.split(sep)] for the two-character separator [sep = c1 c2], scanning
    from the left without overlap. *)
Fixpoint split2 (c1 c2 : ascii) (s : str) : list str :=
  match s with
  | [] => [[]]
  | c :: s' =>
      match s' with
      | c' :: s'' =>
          if chr_eqb c c1 && chr_eqb c' c2 then [] :: split2 c1 c2 s''
          else cons_head c (split2 c1 c2 s')
      | [] => [[c]]
      end
  end.

(** [re.split(r'[...]+', s)] for a character class [cls]: the pieces between
    the maximal runs of [cls] characters, empty pieces at the ends included. *)
Fixpoint re_split_runs (cls : ascii -> bool) (s : str) : list str :=
  match s with
  | [] => [[]]
  | c :: s' =>
      if cls c then
        match s' with
        | c' :: _ => if cls c' then re_split_runs cls s' else [] :: re_split_runs cls s'
        | [] => [] :: re_split_runs cls s'
        end
      else cons_head c (re_split_runs cls s')
  end.

(** [re.sub(r'[^...]', '', s)] for a character class [keep]. *)
Definition re_sub_delete_not (keep : ascii -> bool) (s : str) : str := filter keep s.

(** [s.replace(c, '')] for a one-character [c]. *)
Definition remove_char (c : ascii) (s : str) : str :=
  filter (fun x => negb (chr_eqb x c)) s.

Fixpoint startswith (s p : str) : bool :=
  match p, s with
  | [], _ => true
  | x :: p', y :: s' => chr_eqb x y && startswith s' p'
  | _ :: _, [] => false
  end.

(** [s.endswith(p)] *)
Definition endswith (s p : str) : bool := startswith (rev s) (rev p).

(** [q in s] for strings: [q] occurs in [s] as a contiguous block. *)
Fixpoint contains (s q : str) : bool :=
  startswith s q ||
  match s with
  | [] => false
  | _ :: s' => contains s' q
  end.

(** [w in words] for a set or a list of strings. *)
Definition mem (w : str) (ws : list str) : bool := existsb (str_eqb w) ws.

(** [str(n)] for an [int]. *)
Definition str_of_int (n : Z) : str :=
  String.list_ascii_of_string (NilEmpty.string_of_int (Z.to_int n)).

(** ** Exceptions *)

Inductive exn : Type := ZeroDivisionError.

Inductive result (A : Type) : Type :=
| Ok (a : A)
| Raise (e : exn).
Arguments Ok {A} a.
Arguments Raise {A} e.

Definition bind {A B : Type} (c : result A) (k : A -> result B) : result B :=
  match c with
  | Ok a => k a
  | Raise e => Raise e
  end.

(** ** Numbers *)

(** The double nearest to [n / d] for [d <> 0], ties to even, computed on
    integers of any size: the quotient is taken with at least two bits more
    than the format holds and a sticky bit, and is then rounded once. *)
Definition nearest_double_wide (n d : Z) : float :=
  let neg := xorb (n <? 0) (d <? 0) in
  let s := Z.max 0 (56 + Z.log2 (Z.abs d) - Z.log2 (Z.abs n)) in
  let a := Z.abs n * 2 ^ s in
  let m := 2 * (a / Z.abs d) + (if a mod Z.abs d =? 0 then 0 else 1) in
  SF2Prim (binary_normalize prec emax (if neg then - m else m) (- (s + 1)) neg).

(** An integer of magnitude at most 2^53 as the double that equals it. *)
Definition double_of_small (z : Z) : float :=
  let f := of_uint63 (Uint63Axioms.of_Z (Z.abs z)) in
  if z <? 0 then (- f)%float else f.

(** The double nearest to [n / d] for [d <> 0], as CPython divides two
    [int]s: operands that are doubles exactly are divided in binary64, which
    rounds the quotient correctly; larger ones go the long way. *)
Definition nearest_double (n d : Z) : float :=
  if (Z.abs n <=? 9007199254740992) && (Z.abs d <=? 9007199254740992)
  then (double_of_small n / double_of_small d)%float
  else nearest_double_wide n d.

(** [a / b] on two [int]s: correctly rounded, and an error when [b] is 0. *)
Definition truediv (a b : Z) : result float :=
  if b =? 0 then Raise ZeroDivisionError else Ok (nearest_double a b).

Definition float_of_int (n : Z) : float := nearest_double n 1.

(** The integer nearest to [n / d] for [d > 0], ties to even. *)
Definition round_half_even (n d : Z) : Z :=
  let q := n / d in
  match 2 * (n mod d) ?= d with
  | Lt => q
  | Gt => q + 1
  | Eq => if Z.even q then q else q + 1
  end.

(** [round(x, ndigits)] on a [float], for the [ndigits >= 0] the analyzer
    uses: the exact value of [x] is rounded to [ndigits] decimals, ties to
    even, and the decimal is converted back to the nearest double.  A value
    without fractional bits, an infinity and a NaN round to themselves. *)
Definition float_round (x : float) (ndigits : nat) : float :=
  match Prim2SF x with
  | S754_finite s m e =>
      if 0 <=? e then x
      else
        let p := 10 ^ Z.of_nat ndigits in
        let k := round_half_even (Zpos m * p) (2 ^ (- e)) in
        let r := nearest_double k p in
        if s then (- r)%float else r
  | _ => x
  end.

(** A Python number: the analyzer returns [int]s on some paths and [float]s
    on others. *)
Inductive num : Type :=
| Int (z : Z)
| Float (f : float).

Definition to_float (x : num) : float :=
  match x with
  | Int z => float_of_int z
  | Float f => f
  end.

(** [round(x, ndigits)]: an [int] is returned as it is for [ndigits >= 0]. *)
Definition round (x : num) (ndigits : nat) : num :=
  match x with
  | Int z => Int z
  | Float f => Float (float_round f ndigits)
  end.

Definition num_ltb (x y : num) : bool :=
  match x, y with
  | Int a, Int b => a <? b
  | _, _ => PrimFloat.ltb (to_float x) (to_float y)
  end.

Definition num_leb (x y : num) : bool :=
  match x, y with
  | Int a, Int b => a <=? b
  | _, _ => PrimFloat.leb (to_float x) (to_float y)
  end.

(** [min(a, b)] and [max(a, b)]: the first argument unless the second is
    strictly smaller (larger). *)
Definition min (a b : num) : num := if num_ltb b a then b else a.
Definition max (a b : num) : num := if num_ltb a b then b else a.

(** [len(xs)] *)
Definition len {A : Type} (xs : list A) : Z := Z.of_nat (length xs).

(** [sum(xs)] on [int]s: from 0, left to right. *)
Definition sum (xs : list Z) : Z := fold_left Z.add xs 0.

(** The truth value of a string or of a list: not empty. *)
Definition truthy {A : Type} (s : list A) : bool :=
  match s with
  | [] => false
  | _ :: _ => true
  end.

(** Runs [f] over a list, stopping at the first error. *)
Fixpoint mapM {A B : Type} (f : A -> result B) (xs : list A) : result (list B) :=
  match xs with
  | [] => Ok []
  | x :: xs' =>
      match f x with
      | Ok y => match mapM f xs' with
                | Ok ys => Ok (y :: ys)
                | Raise e => Raise e
                end
      | Raise e => Raise e
      end
  end.

(** ** Dictionaries, in insertion order *)

Definition dict (V : Type) : Type := list (str * V).

Fixpoint dict_get {V : Type} (d : dict V) (k : str) : option V :=
  match d with
  | [] => None
  | (k', v) :: d' => if str_eqb k' k then Some v else dict_get d' k
  end.

(** [d[k] = v]: an existing key keeps its place, a new key goes last. *)
Fixpoint dict_set {V : Type} (d : dict V) (k : str) (v : V) : dict V :=
  match d with
  | [] => [(k, v)]
  | (k', v') :: d' =>
      if str_eqb k' k then (k', v) :: d' else (k', v') :: dict_set d' k v
  end.

Definition keys {V : Type} (d : dict V) : list str := map fst d.
Definition values {V : Type} (d : dict V) : list V := map snd d.
Definition items {V : Type} (d : dict V) : list (str * V) := d.

(** [collections.Counter(ws)]: each element is counted under its own key,
    keys in the order of their first occurrence. *)
Definition counter_incr (c : dict Z) (w : str) : dict Z :=
  dict_set c w (match dict_get c w with Some n => n | None => 0 end + 1).

Definition Counter (ws : list str) : dict Z := fold_left counter_incr ws [].

(** [sorted(xs, key=count, reverse=True)]: descending and stable. *)
Fixpoint insert_desc (x : str * Z) (l : list (str * Z)) : list (str * Z) :=
  match l with
  | [] => [x]
  | y :: l' => if snd y <=? snd x then x :: l else y :: insert_desc x l'
  end.

Definition sorted_desc (l : list (str * Z)) : list (str * Z) :=
  fold_right insert_desc [] l.

(** [c.most_common(n)]: the [n] largest counts, equal counts in the order the
    keys were first met; nothing for [n <= 0]. *)
Definition most_common (c : dict Z) (n : Z) : list (str * Z) :=
  firstn (Z.to_nat n) (sorted_desc (items c)).

End Py.

Import Py.

Coercion String.list_ascii_of_string : String.string >-> list.
Open Scope string_scope.

Notation "x <- c ;; k" := (bind c (fun x => k))
  (at level 61, c at next level, right associativity).

(** ** The document store *)

Module DocumentStore.

(** The argument of [add_document]: a dict with the keys [title] and
    [content], and optionally [author], [category] and [tags] ([None] stands
    for a key that is missing). *)
Record DocData : Type := mkDocData {
  dd_title : str;
  dd_content : str;
  dd_author : option str;
  dd_category : option str;
  dd_tags : option (list str)
}.

(** A stored document. *)
Record Document : Type := mkDocument {
  id : str;
  title : str;
  content : str;
  author : option str;
  category : option str;
  tags : list str;
  created_at : str
}.

Record Store : Type := mkStore {
  documents : dict Document;
  next_id : Z
}.

(** [add_document]; [now] is what [datetime.now().isoformat()] returns at the
    call. *)
Definition add_document (self : Store) (doc_data : DocData) (now : str)
  : str * Store :=
  let doc_id := str_of_int (next_id self) in
  let doc := {| id := doc_id;
                title := dd_title doc_data;
                content := dd_content doc_data;
                author := dd_author doc_data;
                category := dd_category doc_data;
                tags := match dd_tags doc_data with Some ts => ts | None => [] end;
                created_at := now |} in
  (doc_id, {| documents := dict_set (documents self) doc_id doc;
              next_id := next_id self + 1 |}).

Definition get_document (self : Store) (doc_id : str) : option Document :=
  dict_get (documents self) doc_id.

(** One iteration of the loop of [search_documents], [query] already in lower
    case. *)
Definition matches (query : str) (doc : Document) : bool :=
  contains (lower (title doc)) query
  || contains (lower (content doc)) query
  || existsb (fun tag => contains (lower tag) query) (tags doc).

(** [search_documents] returns the results and the store it leaves behind. *)
Definition search_documents (self : Store) (query : str)
  : list Document * Store :=
  let query := lower query in
  let results :=
    fold_left (fun results doc => if matches query doc then results ++ [doc] else results)
              (values (documents self)) [] in
  (results, self).

Definition get_all_documents (self : Store) : list Document :=
  values (documents self).

Definition sample (t c a g : String.string) (ts : list String.string) : DocData :=
  {| dd_title := t; dd_content := c; dd_author := Some (a : str);
     dd_category := Some (g : str);
     dd_tags := Some (map String.list_ascii_of_string ts) |}.

Definition sample_docs : list DocData :=
  [
    sample
      "The Benefits of Renewable Energy"
      "Renewable energy sources like solar and wind power offer tremendous benefits for our planet. They reduce greenhouse gas emissions, create jobs, and provide sustainable solutions for future generations. Solar panels and wind turbines are becoming more efficient and cost-effective each year."
      "Dr. Sarah Johnson" "Environment"
      ["renewable"; "energy"; "sustainability"];
    sample
      "Introduction to Machine Learning"
      "Machine learning is a subset of artificial intelligence that enables computers to learn without being explicitly programmed. It involves algorithms that can identify patterns in data and make predictions. Popular techniques include supervised learning, unsupervised learning, and reinforcement learning."
      "Prof. Alex Chen" "Technology"
      ["machine learning"; "AI"; "algorithms"];
    sample
      "Healthy Eating Habits"
      "Maintaining a balanced diet is crucial for good health. Include plenty of fruits, vegetables, whole grains, and lean proteins in your meals. Limit processed foods, sugary drinks, and excessive amounts of saturated fats. Regular meal times and proper hydration are equally important."
      "Lisa Martinez" "Health"
      ["nutrition"; "diet"; "wellness"];
    sample
      "The Art of Photography"
      "Photography is both an art and a science. Understanding composition, lighting, and timing can dramatically improve your photos. The rule of thirds, leading lines, and proper exposure are fundamental concepts every photographer should master."
      "Michael Thompson" "Arts"
      ["photography"; "composition"; "art"];
    sample
      "Climate Change Impact"
      "Climate change poses significant challenges to our planet. Rising temperatures, melting ice caps, and extreme weather events are becoming more frequent. We must take immediate action to reduce carbon emissions and transition to sustainable practices."
      "Dr. Emma Wilson" "Environment"
      ["climate"; "global warming"; "environment"];
    sample
      "Financial Planning for Beginners"
      "Starting your financial journey can seem overwhelming, but it doesn't have to be. Begin with creating a budget, building an emergency fund, and understanding the basics of investing. Compound interest is your friend when you start early."
      "Robert Davis" "Finance"
      ["finance"; "budgeting"; "investing"];
    sample
      "The Future of Transportation"
      "Transportation is evolving rapidly with electric vehicles, autonomous driving, and hyperloop technology. These innovations promise to reduce emissions, improve safety, and revolutionize how we move people and goods."
      "Jennifer Lee" "Technology"
      ["transportation"; "electric vehicles"; "innovation"];
    sample
      "Effective Team Communication"
      "Clear communication is the foundation of successful teams. Active listening, regular feedback, and open dialogue foster collaboration. Use appropriate communication channels and be respectful of different perspectives and working styles."
      "David Park" "Business"
      ["communication"; "teamwork"; "leadership"];
    sample
      "Gardening for Beginners"
      "Starting a garden can be incredibly rewarding. Choose plants suitable for your climate and soil type. Proper watering, sunlight, and fertilization are essential for healthy plant growth. Start small and expand your garden as you gain experience."
      "Mary Rodriguez" "Lifestyle"
      ["gardening"; "plants"; "outdoor"];
    sample
      "The Science of Sleep"
      "Sleep is essential for physical and mental health. During sleep, our bodies repair tissues, consolidate memories, and regulate hormones. Most adults need 7-9 hours of quality sleep per night for optimal functioning."
      "Dr. James Williams" "Health"
      ["sleep"; "health"; "wellness"];
    sample
      "Digital Marketing Strategies"
      "Digital marketing has transformed how businesses reach customers. Social media, content marketing, and search engine optimization are key components. Understanding your target audience and measuring campaign performance are crucial for success."
      "Amanda Clark" "Business"
      ["marketing"; "digital"; "social media"];
    sample
      "Mindfulness and Meditation"
      "Mindfulness practices can reduce stress and improve mental clarity. Regular meditation, even for just 10 minutes daily, can have profound benefits. Focus on breathing, body awareness, and present-moment attention."
      "Sarah Kumar" "Wellness"
      ["mindfulness"; "meditation"; "stress relief"];
    sample
      "Sustainable Living Tips"
      "Small changes in daily habits can make a big environmental impact. Reduce waste, conserve energy, choose eco-friendly products, and support sustainable businesses. Every action contributes to a healthier planet."
      "Green Living Team" "Environment"
      ["sustainability"; "eco-friendly"; "green living"];
    sample
      "The Power of Reading"
      "Reading books expands knowledge, improves vocabulary, and enhances critical thinking skills. Whether fiction or non-fiction, books provide entertainment, education, and personal growth opportunities. Make reading a daily habit."
      "Library Association" "Education"
      ["reading"; "books"; "education"];
    sample
      "Coding Best Practices"
      "Writing clean, maintainable code is essential for software development. Use meaningful variable names, write comments, follow coding standards, and test your code regularly. Code review and refactoring improve code quality over time."
      "Tech Team" "Technology"
      ["coding"; "programming"; "best practices"];
    sample
      "Travel Safety Tips"
      "Traveling safely requires preparation and awareness. Research your destination, keep copies of important documents, stay alert in crowded areas, and trust your instincts. Travel insurance provides additional peace of mind."
      "Travel Safety Council" "Travel"
      ["travel"; "safety"; "tips"]
  ].

(** [_initialize_sample_documents]; [clock i] is the time read while the
    sample of index [i] is added. *)
Definition _initialize_sample_documents (self : Store) (clock : nat -> str) : Store :=
  fold_left (fun self x => snd (add_document self (snd x) (clock (fst x))))
            (combine (seq 0 (length sample_docs)) sample_docs) self.

Definition __init__ (clock : nat -> str) : Store :=
  _initialize_sample_documents {| documents := []; next_id := 1 |} clock.

End DocumentStore.

(** ** The text analyzer *)

Module TextAnalyzer.

Definition POSITIVE_WORDS : list str :=
  map String.list_ascii_of_string
    ["good"; "great"; "excellent"; "amazing"; "wonderful"; "fantastic";
     "awesome"; "love"; "like"; "enjoy"; "happy"; "pleased"; "satisfied";
     "delighted"; "benefits"; "advantages"; "success"; "effective";
     "efficient"; "improve"; "better"; "best"; "perfect"; "outstanding";
     "remarkable"; "positive"; "opportunity"; "solution"; "helpful";
     "useful"; "valuable"; "important"; "essential"; "crucial";
     "significant"; "rewarding"; "promising"].

Definition NEGATIVE_WORDS : list str :=
  map String.list_ascii_of_string
    ["bad"; "terrible"; "awful"; "horrible"; "hate"; "dislike"; "sad";
     "disappointed"; "frustrated"; "angry"; "annoyed"; "problems"; "issues";
     "challenges"; "difficult"; "hard"; "impossible"; "failure"; "fail";
     "worst"; "poor"; "disappointing"; "negative"; "wrong"; "error";
     "mistakes"; "concerning"; "worried"; "stress"; "overwhelming"].

Definition STOP_WORDS : list str :=
  map String.list_ascii_of_string
    ["the"; "a"; "an"; "and"; "or"; "but"; "in"; "on"; "at"; "to"; "for";
     "of"; "with"; "by"; "is"; "are"; "was"; "were"; "be"; "been"; "have";
     "has"; "had"; "do"; "does"; "did"; "will"; "would"; "could"; "should";
     "may"; "might"; "can"; "this"; "that"; "these"; "those"; "i"; "you";
     "he"; "she"; "it"; "we"; "they"; "me"; "him"; "her"; "us"; "them"; "my";
     "your"; "his"; "her"; "its"; "our"; "their"; "all"; "any"; "each";
     "few"; "more"; "most"; "other"; "some"; "such"; "no"; "not"; "only";
     "own"; "same"; "so"; "than"; "too"; "very"; "just"; "now"].

Definition clean_text (text : str) : str :=
  re_sub_delete_not (fun c => isword c || isspace c) (lower text).

Definition get_words (text : str) : list str :=
  filter truthy (split (clean_text text)).

(** The class [[.!?]] of the sentence splitter. *)
Definition is_terminator (c : ascii) : bool :=
  chr_eqb c "." || chr_eqb c "!" || chr_eqb c "?".

Definition get_sentences (text : str) : list str :=
  let sentences := re_split_runs is_terminator text in
  map strip (filter (fun s => truthy (strip s)) sentences).

Record Scores : Type := mkScores {
  positive : num;
  negative : num;
  neutral : num
}.

Record Sentiment : Type := mkSentiment {
  sentiment : str;
  confidence : num;
  scores : Scores
}.

Definition analyze_sentiment (text : str) : result Sentiment :=
  let words := get_words text in
  let positive_count := sum (map (fun _ => 1) (filter (fun word => mem word POSITIVE_WORDS) words)) in
  let negative_count := sum (map (fun _ => 1) (filter (fun word => mem word NEGATIVE_WORDS) words)) in
  let total_words := len words in
  if total_words =? 0 then
    Ok {| sentiment := "neutral"; confidence := Float 0;
          scores := {| positive := Int 0; negative := Int 0; neutral := Int 0 |} |}
  else
    positive_score <- truediv positive_count total_words ;;
    negative_score <- truediv negative_count total_words ;;
    let '(label, conf) :=
      if (negative_score <? positive_score)%float then (("positive" : str), positive_score)
      else if (positive_score <? negative_score)%float then (("negative" : str), negative_score)
      else (("neutral" : str), 0.5%float) in
    Ok {| sentiment := label;
          confidence := round (Float conf) 3;
          scores := {| positive := round (Float positive_score) 3;
                       negative := round (Float negative_score) 3;
                       neutral := round (Float (1 - positive_score - negative_score)) 3 |} |}.

Record Keyword : Type := mkKeyword {
  word : str;
  frequency : Z;
  relevance : num
}.

(** The filter of [extract_keywords]. *)
Definition keep (w : str) : bool := negb (mem w STOP_WORDS) && (2 <? len w).

Definition extract_keywords (text : str) (limit : Z) : result (list Keyword) :=
  let words := get_words text in
  let filtered_words := filter keep words in
  let word_counts := Counter filtered_words in
  let top_keywords := most_common word_counts limit in
  let total_words := len filtered_words in
  mapM (fun wc : str * Z =>
          let (w, count) := wc in
          r <- (if 0 <? total_words
                then q <- truediv count total_words ;; Ok (round (Float q) 3)
                else Ok (Int 0)) ;;
          Ok {| word := w; frequency := count; relevance := r |})
       top_keywords.

Definition vowels : str := "aeiouy".

(** The body of the loop of [count_syllables] on
    [(syllable_count, previous_was_vowel)]. *)
Definition syllable_step (st : Z * bool) (char : ascii) : Z * bool :=
  let (syllable_count, previous_was_vowel) := st in
  if contains vowels [char] then
    ((if negb previous_was_vowel then syllable_count + 1 else syllable_count), true)
  else (syllable_count, false).

Definition count_syllables (w : str) : Z :=
  let w := lower w in
  let (syllable_count, _) := fold_left syllable_step w (0, false) in
  let syllable_count :=
    if endswith w "e" && (1 <? syllable_count) then syllable_count - 1
    else syllable_count in
  Z.max 1 syllable_count.

Record Readability : Type := mkReadability {
  flesch_reading_ease : num;
  flesch_grade_level : num;
  avg_sentence_length : num;
  avg_word_length : num;
  difficulty : str
}.

(** The chain of comparisons that names the difficulty. *)
Definition difficulty_of (flesch_score : num) : str :=
  if num_leb (Int 90) flesch_score then "very easy"
  else if num_leb (Int 80) flesch_score then "easy"
  else if num_leb (Int 70) flesch_score then "fairly easy"
  else if num_leb (Int 60) flesch_score then "standard"
  else if num_leb (Int 50) flesch_score then "fairly difficult"
  else if num_leb (Int 30) flesch_score then "difficult"
  else "very difficult".

Definition calculate_readability (text : str) : result Readability :=
  let words := get_words text in
  let sentences := get_sentences text in
  if negb (truthy sentences) || negb (truthy words) then
    Ok {| flesch_reading_ease := Int 0; flesch_grade_level := Int 0;
          avg_sentence_length := Int 0; avg_word_length := Int 0;
          difficulty := "unknown" |}
  else
    let total_words := len words in
    let total_sentences := len sentences in
    let total_syllables := sum (map count_syllables words) in
    asl <- truediv total_words total_sentences ;;
    aspw <- truediv total_syllables total_words ;;
    awl <- truediv (sum (map len words)) total_words ;;
    let flesch_score := Float (206.835 - (1.015 * asl) - (84.6 * aspw)) in
    let flesch_score := max (Int 0) (min (Int 100) flesch_score) in
    let grade_level := Float ((0.39 * asl) + (11.8 * aspw) - 15.59) in
    let grade_level := max (Int 0) grade_level in
    Ok {| flesch_reading_ease := round flesch_score 2;
          flesch_grade_level := round grade_level 2;
          avg_sentence_length := round (Float asl) 2;
          avg_word_length := round (Float awl) 2;
          difficulty := difficulty_of flesch_score |}.

Record Stats : Type := mkStats {
  word_count : Z;
  sentence_count : Z;
  character_count : Z;
  character_count_no_spaces : Z;
  paragraph_count : Z;
  avg_words_per_sentence : num
}.

Definition get_text_stats (text : str) : result Stats :=
  let words := get_words text in
  let sentences := get_sentences text in
  avg <- (if truthy sentences
          then q <- truediv (len words) (len sentences) ;; Ok (round (Float q) 2)
          else Ok (Int 0)) ;;
  Ok {| word_count := len words;
        sentence_count := len sentences;
        character_count := len text;
        character_count_no_spaces := len (remove_char " " text);
        paragraph_count :=
          len (filter (fun p => truthy (strip p)) (split2 "010" "010" text));
        avg_words_per_sentence := avg |}.

End TextAnalyzer.

(** ** The tools that look a document up *)

Module Server.
Import DocumentStore TextAnalyzer.

Record Analysis : Type := mkAnalysis {
  a_document_id : str;
  a_title : str;
  a_author : option str;
  a_category : option str;
  a_sentiment : Sentiment;
  a_keywords : list Keyword;
  a_readability : Readability;
  a_stats : Stats;
  a_timestamp : str
}.

(** What a tool returns: the dict [{"error": message}], an analysis, or a
    document. *)
Inductive payload : Type :=
| ErrorPayload (error : str)
| AnalysisPayload (a : Analysis)
| DocumentPayload (d : Document).

Definition not_found (document_id : str) : str :=
  "Document with ID " ++ document_id ++ " not found".

(** [analyze_document] on the store of the server; a stored document is a
    dict with seven keys, so [not document] holds for [None] only. *)
Definition analyze_document (document_store : Store) (document_id now : str)
  : result payload * Store :=
  match get_document document_store document_id with
  | None => (Ok (ErrorPayload (not_found document_id)), document_store)
  | Some document =>
      let text := content document in
      (sent <- analyze_sentiment text ;;
       kws <- extract_keywords text 10 ;;
       readab <- calculate_readability text ;;
       st <- get_text_stats text ;;
       Ok (AnalysisPayload
             {| a_document_id := document_id;
                a_title := title document;
                a_author := author document;
                a_category := category document;
                a_sentiment := sent;
                a_keywords := kws;
                a_readability := readab;
                a_stats := st;
                a_timestamp := now |}),
       document_store)
  end.

Definition get_document_info (document_store : Store) (document_id : str)
  : result payload * Store :=
  match get_document document_store document_id with
  | None => (Ok (ErrorPayload (not_found document_id)), document_store)
  | Some document => (Ok (DocumentPayload document), document_store)
  end.

End Server.

(** ** The tools that add, search and list

    They carry the names of the store's methods, so this module is used
    through qualified names. *)

Module Tools.
Import DocumentStore TextAnalyzer.

(** The dict [add_document] answers with. *)
Record Added : Type := mkAdded {
  ad_document_id : str;
  ad_title : str;
  ad_status : str;
  ad_message : str
}.

Definition add_document (document_store : Store) (title content : str)
           (author category : option str) (tags : option (list str)) (now : str)
  : Added * Store :=
  let tags := match tags with None => [] | Some ts => ts end in
  let doc_data := {| dd_title := title; dd_content := content;
                     dd_author := author; dd_category := category;
                     dd_tags := Some tags |} in
  let (doc_id, document_store) :=
    DocumentStore.add_document document_store doc_data now in
  ({| ad_document_id := doc_id;
      ad_title := title;
      ad_status := "added";
      ad_message := "Document '" ++ title ++ "' added successfully with ID " ++ doc_id |},
   document_store).

(** An entry of the answer of [search_documents]. *)
Record Hit : Type := mkHit {
  h_document_id : str;
  h_title : str;
  h_author : option str;
  h_category : option str;
  h_tags : list str;
  h_snippet : str
}.

(** [s[:n]] for [n >= 0] *)
Definition slice_to (n : nat) (s : str) : str := firstn n s.

Definition hit_of (doc : Document) : Hit :=
  {| h_document_id := id doc;
     h_title := title doc;
     h_author := author doc;
     h_category := category doc;
     h_tags := tags doc;
     h_snippet := if 200 <? len (content doc)
                  then slice_to 200 (content doc) ++ "..."
                  else content doc |}.

Definition search_documents (document_store : Store) (query : str)
  : list Hit * Store :=
  let (results, document_store) :=
    DocumentStore.search_documents document_store query in
  (map hit_of results, document_store).

(** An entry of the answer of [list_documents]. *)
Record Listed : Type := mkListed {
  l_document_id : str;
  l_title : str;
  l_author : option str;
  l_category : option str;
  l_tags : list str;
  l_created_at : str
}.

Definition listed_of (doc : Document) : Listed :=
  {| l_document_id := id doc;
     l_title := title doc;
     l_author := author doc;
     l_category := category doc;
     l_tags := tags doc;
     l_created_at := created_at doc |}.

Definition list_documents (document_store : Store) : list Listed :=
  map listed_of (get_all_documents document_store).

End Tools.

Import DocumentStore TextAnalyzer Server.

(** ** Notions of the specification *)

Module Spec.

(** [q] occurs in [s] as a contiguous block. *)
Definition Substring (q s : str) : Prop := exists l r, s = l ++ q ++ r.

(** The vowel class of the syllable estimator. *)
Definition is_vowel (c : ascii) : bool :=
  existsb (chr_eqb c) ["a"; "e"; "i"; "o"; "u"; "y"]%char.

(** The positions of [w] that hold a vowel-class character whose predecessor,
    if there is one, is not vowel-class. *)
Definition vowel_onsets (w : str) : list nat :=
  filter (fun i => is_vowel (nth i w " "%char)
                   && ((i =? 0)%nat || negb (is_vowel (nth (i - 1) w " "%char))))
         (seq 0 (length w)).

(** The onsets of a word read after a character that was ([prev]) or was not
    a vowel. *)
Definition onsets_after (prev : bool) (w : str) : list nat :=
  filter (fun i => is_vowel (nth i w " "%char)
                   && (if (i =? 0)%nat then negb prev
                       else negb (is_vowel (nth (i - 1) w " "%char))))
         (seq 0 (length w)).

Definition ends_in_e (w : str) : bool := chr_eqb (last w " "%char) "e".

(** The syllable estimator in the words of the specification. *)
Definition syllable_estimate (w : str) : Z :=
  let w := lower w in
  let n := len (vowel_onsets w) in
  Z.max 1 (if ends_in_e w && (1 <? n) then n - 1 else n).

(** The scores of the sentiment analysis: the share of the words that are in
    each lexicon, as Python's division of the two counts gives it. *)
Definition positive_count (text : str) : Z :=
  len (filter (fun w => mem w POSITIVE_WORDS) (get_words text)).

Definition negative_count (text : str) : Z :=
  len (filter (fun w => mem w NEGATIVE_WORDS) (get_words text)).

Definition positive_score (text : str) : float :=
  nearest_double (positive_count text) (len (get_words text)).

Definition negative_score (text : str) : float :=
  nearest_double (negative_count text) (len (get_words text)).

(** The averages of the readability formulas. *)
Definition words_per_sentence (text : str) : float :=
  nearest_double (len (get_words text)) (len (get_sentences text)).

Definition syllables_per_word (text : str) : float :=
  nearest_double (sum (map count_syllables (get_words text))) (len (get_words text)).

Definition letters_per_word (text : str) : float :=
  nearest_double (sum (map len (get_words text))) (len (get_words text)).

(** Flesch Reading Ease and Flesch-Kincaid Grade Level, before any clamp. *)
Definition reading_ease (text : str) : float :=
  (206.835 - 1.015 * words_per_sentence text - 84.6 * syllables_per_word text)%float.

Definition grade_level (text : str) : float :=
  (0.39 * words_per_sentence text + 11.8 * syllables_per_word text - 15.59)%float.

(** The difficulty labels: the first threshold the score reaches names it. *)
Definition thresholds : list (Z * String.string) :=
  [(90, "very easy"); (80, "easy"); (70, "fairly easy"); (60, "standard");
   (50, "fairly difficult"); (30, "difficult")].

Definition bucket (score : num) : str :=
  match find (fun t => num_leb (Int (fst t)) score) thresholds with
  | Some t => snd t
  | None => "very difficult"
  end.

(** One sentence of 300 one-letter words. *)
Definition long_sentence : str := concat (repeat ("a " : str) 300) ++ ".".

(** [sep.join(pieces)] *)
Fixpoint join (sep : str) (pieces : list str) : str :=
  match pieces with
  | [] => []
  | p :: ps =>
      match ps with
      | [] => p
      | _ :: _ => p ++ sep ++ join sep ps
      end
  end.

(** The line feed, and the blank line that separates paragraphs. *)
Definition LF : ascii := "010"%char.
Definition blank_line : str := [LF; LF].

(** A text with a space, a tab and a line feed. *)
Definition mixed_whitespace : str := ["a"; " "; "b"; "009"; "c"; "010"; "d"]%char.

(** The record [readability] returns when there is nothing to measure. *)
Definition unknown : Readability :=
  {| flesch_reading_ease := Int 0; flesch_grade_level := Int 0;
     avg_sentence_length := Int 0; avg_word_length := Int 0;
     difficulty := "unknown" |}.

(** The tokens [extract] keeps, and how often and where a token occurs. *)
Definition kept_words (text : str) : list str := filter keep (get_words text).

Definition count (w : str) (ws : list str) : Z := len (filter (str_eqb w) ws).

Fixpoint first_index (w : str) (ws : list str) : nat :=
  match ws with
  | [] => 0
  | x :: ws' => if str_eqb x w then 0 else S (first_index w ws')
  end.

(** The tokens of a list, each once, in the order they are first met. *)
Fixpoint distinct (ws : list str) : list str :=
  match ws with
  | [] => []
  | x :: ws' => x :: filter (fun y => negb (str_eqb x y)) (distinct ws')
  end.

(** [a] ranks before [b]: it is more frequent, or as frequent and met first. *)
Definition ranks_before (ws : list str) (a b : str) : Prop :=
  count b ws < count a ws
  \/ (count a ws = count b ws /\ (first_index a ws < first_index b ws)%nat).

(** The entry [extract] builds for a token and its count. *)
Definition keyword_of (total : Z) (wc : str * Z) : Keyword :=
  {| word := fst wc;
     frequency := snd wc;
     relevance := if 0 <? total
                  then Float (float_round (nearest_double (snd wc) total) 3)
                  else Int 0 |}.

(** The order of [most_common]: more frequent first; equally frequent
    entries as [R] orders them. *)
Definition by_count_then (R : str * Z -> str * Z -> Prop) (x y : str * Z) : Prop :=
  snd y < snd x \/ (snd y = snd x /\ R x y).

(** [sum(k["relevance"] for k in keywords)] *)
Definition relevance_sum (ks : list Keyword) : float :=
  fold_left (fun acc k => (acc + to_float (relevance k))%float) ks 0%float.

(** [test] holds on the [count] integers from [k] on. *)
Fixpoint all_from (count : nat) (k : Z) (test : Z -> bool) : bool :=
  match count with
  | O => true
  | S count' => test k && all_from count' (k + 1) test
  end.

(** The operations of the store, and the states they reach from the one
    [__init__] builds. *)
Inductive op : Type :=
| Add (doc_data : DocData) (now : str)
| Get (doc_id : str)
| Search (query : str)
| ListAll.

Definition step (self : Store) (o : op) : Store :=
  match o with
  | Add doc_data now => snd (add_document self doc_data now)
  | Get _ => self
  | Search query => snd (search_documents self query)
  | ListAll => self
  end.

Definition run (clock : nat -> str) (ops : list op) : Store :=
  fold_left step ops (__init__ clock).

Definition is_add (o : op) : bool :=
  match o with
  | Add _ _ => true
  | _ => false
  end.

(** The number of [add] calls among [ops]. *)
Definition adds (ops : list op) : nat := length (filter is_add ops).

(** The decimal strings "1", "2", ..., "n". *)
Definition decimals (n : nat) : list str :=
  map (fun i => str_of_int (Z.of_nat i)) (seq 1 n).

(** A store that holds [n] documents under the ids "1".."n", each under its
    own id, and will give out "n+1" next. *)
Definition sequential (self : Store) (n : nat) : Prop :=
  next_id self = Z.of_nat n + 1
  /\ keys (documents self) = decimals n
  /\ Forall (fun kv => id (snd kv) = fst kv) (documents self).

(** The document the store keeps for the [n]-th [add], given its argument
    and the time of the call. *)
Definition record (n : nat) (x : DocData * str) : Document :=
  {| id := str_of_int (Z.of_nat n);
     title := dd_title (fst x);
     content := dd_content (fst x);
     author := dd_author (fst x);
     category := dd_category (fst x);
     tags := match dd_tags (fst x) with Some ts => ts | None => [] end;
     created_at := snd x |}.

(** The documents kept for a list of [add]s, numbered from [n] on. *)
Fixpoint records (n : nat) (xs : list (DocData * str)) : list Document :=
  match xs with
  | [] => []
  | x :: xs' => record n x :: records (S n) xs'
  end.

(** The arguments of the [add] calls among [ops], in order. *)
Definition added (ops : list op) : list (DocData * str) :=
  flat_map (fun o => match o with
                     | Add doc_data now => [(doc_data, now)]
                     | _ => []
                     end) ops.

(** The samples with the times they are added at. *)
Definition seeded (clock : nat -> str) : list (DocData * str) :=
  map (fun x => (snd x, clock (fst x)))
      (combine (seq 0 (length sample_docs)) sample_docs).

(** The store holds the documents of the [add]s [xs], numbered from 1. *)
Definition holds (self : Store) (xs : list (DocData * str)) : Prop :=
  sequential self (length xs) /\ get_all_documents self = records 1 xs.

(** The string is empty or begins with a character that is not whitespace. *)
Definition starts_clean (s : str) : bool :=
  match s with
  | [] => true
  | c :: _ => negb (isspace c)
  end.

(** Seven sentences, twelve words, twenty-two syllables. *)
Definition borderline_text : str :=
  "banana a. banana a. banana a. banana a. banana a. a. a.".

(** A text of punctuation and spaces only. *)
Definition punctuation_only : str := "?! ... ,;".

End Spec.

(** * Properties *)

(** ** Characters and strings *)

Lemma chr_eqb_eq (a b : ascii) : chr_eqb a b = true <-> a = b.
Proof. apply Ascii.eqb_eq. Qed.

Lemma chr_eqb_refl (a : ascii) : chr_eqb a a = true.
Proof. now apply chr_eqb_eq. Qed.

Lemma str_eqb_eq (a b : str) : str_eqb a b = true <-> a = b.
Proof.
  revert b; induction a as [|x a IH]; intros [|y b]; simpl; split;
    try congruence; try reflexivity.
  - rewrite andb_true_iff, chr_eqb_eq, IH. now intros [-> ->].
  - intros [= -> ->]. rewrite chr_eqb_refl. now apply IH.
Qed.

Lemma str_eqb_refl (a : str) : str_eqb a a = true.
Proof. now apply str_eqb_eq. Qed.

Lemma str_eqb_neq (a b : str) : str_eqb a b = false <-> a <> b.
Proof.
  rewrite <- str_eqb_eq. destruct (str_eqb a b); split; congruence.
Qed.

Lemma mem_In (w : str) (ws : list str) : mem w ws = true <-> In w ws.
Proof.
  unfold mem. rewrite existsb_exists. split.
  - intros (x & Hx & E). apply str_eqb_eq in E. now subst.
  - intros H. exists w. split; [assumption | apply str_eqb_refl].
Qed.

Lemma startswith_nil (s : str) : startswith s [] = true.
Proof. now destruct s. Qed.

(** ** The syllable estimator *)

Lemma vowel_class (c : ascii) : contains vowels [c] = Spec.is_vowel c.
Proof.
  destruct c as [[] [] [] [] [] [] [] []]; reflexivity.
Qed.

Lemma endswith_e (w : str) : endswith w "e" = Spec.ends_in_e w.
Proof.
  unfold endswith, Spec.ends_in_e.
  change (rev ("e" : str)) with ["e"%char].
  induction w as [|c w _] using rev_ind; [reflexivity|].
  rewrite last_last, rev_app_distr. cbn [rev app startswith].
  rewrite startswith_nil, andb_true_r. apply Ascii.eqb_sym.
Qed.

Lemma onsets_after_cons (prev : bool) (c : ascii) (w : str) :
  len (Spec.onsets_after prev (c :: w))
  = (if Spec.is_vowel c && negb prev then 1 else 0)
    + len (Spec.onsets_after (Spec.is_vowel c) w).
Proof.
  unfold Spec.onsets_after, len. simpl length at 2. rewrite <- cons_seq, <- seq_shift.
  cbn [filter]. change (nth 0 (c :: w) " "%char) with c. cbn [Nat.eqb].
  assert (E : length (filter
                (fun i => Spec.is_vowel (nth i (c :: w) " "%char)
                   && (if (i =? 0)%nat then negb prev
                       else negb (Spec.is_vowel (nth (i - 1) (c :: w) " "%char))))
                (map S (seq 0 (length w))))
              = length (filter
                (fun i => Spec.is_vowel (nth i w " "%char)
                   && (if (i =? 0)%nat then negb (Spec.is_vowel c)
                       else negb (Spec.is_vowel (nth (i - 1) w " "%char))))
                (seq 0 (length w)))).
  { generalize (seq 0 (length w)) as l. induction l as [|i l IH]; [reflexivity|].
    cbn [map filter].
    change (nth (S i) (c :: w) " "%char) with (nth i w " "%char).
    change (S i =? 0)%nat with false. replace (S i - 1)%nat with i by lia.
    assert (P : Spec.is_vowel (nth i (c :: w) " "%char)
                = if (i =? 0)%nat then Spec.is_vowel c
                  else Spec.is_vowel (nth (i - 1) w " "%char)).
    { destruct i; [reflexivity|]. cbn [nth Nat.eqb].
      now replace (S i - 1)%nat with i by lia. }
    rewrite P.
    destruct (Spec.is_vowel (nth i w " "%char)), (i =? 0)%nat,
      (Spec.is_vowel c), (Spec.is_vowel (nth (i - 1) w " "%char));
      cbn [andb negb length]; now rewrite IH. }
  destruct (Spec.is_vowel c && negb prev); cbn [length]; rewrite E; lia.
Qed.

Lemma syllable_loop (w : str) (n : Z) (prev : bool) :
  fst (fold_left syllable_step w (n, prev)) = n + len (Spec.onsets_after prev w).
Proof.
  revert n prev; induction w as [|c w IH]; intros n prev.
  - cbn. lia.
  - cbn [fold_left]. unfold syllable_step at 2. rewrite vowel_class.
    rewrite onsets_after_cons.
    destruct (Spec.is_vowel c); cbn [andb]; rewrite IH;
      destruct prev; cbn [negb]; lia.
Qed.

Lemma onsets_after_false (w : str) : Spec.onsets_after false w = Spec.vowel_onsets w.
Proof.
  unfold Spec.onsets_after, Spec.vowel_onsets. apply filter_ext. intros i.
  now destruct (i =? 0)%nat.
Qed.

(** C8: the loop of [count_syllables] computes the estimate as the
    specification words it: the word is lowercased, the vowel-class characters
    (a, e, i, o, u, y) that do not follow a vowel-class character are counted,
    one is taken off when the word ends in "e" and the count exceeds 1, and the
    result is at least 1; "cake" and "a" both have one syllable. *)
Theorem count_syllables_spec :
  (forall w : str, count_syllables w = Spec.syllable_estimate w)
  /\ (forall w : str, 1 <= count_syllables w)
  /\ count_syllables "cake" = 1
  /\ count_syllables "a" = 1.
Proof.
  assert (E : forall w : str, count_syllables w = Spec.syllable_estimate w).
  { intros w. unfold count_syllables, Spec.syllable_estimate.
    pose proof (syllable_loop (lower w) 0 false) as H.
    destruct (fold_left syllable_step (lower w) (0, false)) as [n b].
    cbn [fst] in H. rewrite onsets_after_false in H.
    rewrite endswith_e. rewrite H. reflexivity. }
  split; [exact E|]. split; [|split; reflexivity].
  intros w. rewrite E. unfold Spec.syllable_estimate. lia.
Qed.

(** ** The document store *)

Lemma str_of_int_inj (a b : Z) : str_of_int a = str_of_int b -> a = b.
Proof.
  unfold str_of_int. intros E.
  apply (f_equal String.string_of_list_ascii) in E.
  rewrite !String.string_of_list_ascii_of_string in E.
  apply (f_equal NilEmpty.int_of_string) in E.
  rewrite !NilEmpty.isi in E.
  injection E as E. now apply DecimalZ.to_int_inj.
Qed.

Lemma decimals_S (n : nat) :
  Spec.decimals (S n) = Spec.decimals n ++ [str_of_int (Z.of_nat (S n))].
Proof.
  unfold Spec.decimals. rewrite seq_S, map_app. reflexivity.
Qed.

Lemma decimals_NoDup (n : nat) : NoDup (Spec.decimals n).
Proof.
  unfold Spec.decimals. apply Injective_map_NoDup; [|apply seq_NoDup].
  intros i j E. apply str_of_int_inj in E. lia.
Qed.

Lemma decimals_fresh (n : nat) :
  ~ In (str_of_int (Z.of_nat n + 1)) (Spec.decimals n).
Proof.
  unfold Spec.decimals. rewrite in_map_iff. intros (i & E & Hi).
  apply str_of_int_inj in E. apply in_seq in Hi. lia.
Qed.

Section Dict.
Context {V : Type}.

Lemma dict_get_None (d : dict V) (k : str) :
  dict_get d k = None <-> ~ In k (keys d).
Proof.
  induction d as [|[k' v] d IH]; cbn [dict_get keys map fst In].
  - tauto.
  - destruct (str_eqb k' k) eqn:E.
    + apply str_eqb_eq in E. split; [discriminate | tauto].
    + apply str_eqb_neq in E. unfold keys in IH. rewrite IH. tauto.
Qed.

Lemma dict_get_In (d : dict V) (k : str) (v : V) :
  NoDup (keys d) -> In (k, v) d -> dict_get d k = Some v.
Proof.
  induction d as [|[k' v'] d IH]; cbn [dict_get keys map fst In]; [tauto|].
  intros ND [E | H].
  - injection E as -> ->. now rewrite str_eqb_refl.
  - inversion ND as [|? ? Hk ND']; subst.
    destruct (str_eqb k' k) eqn:E.
    + apply str_eqb_eq in E. subst k'. exfalso. apply Hk.
      apply in_map_iff. now exists (k, v).
    + now apply IH.
Qed.


Lemma dict_set_fresh (d : dict V) (k : str) (v : V) :
  ~ In k (keys d) -> dict_set d k v = d ++ [(k, v)].
Proof.
  induction d as [|[k' v'] d IH]; cbn [dict_set keys map fst In app]; [reflexivity|].
  intros H. destruct (str_eqb k' k) eqn:E.
  - apply str_eqb_eq in E. tauto.
  - f_equal. apply IH. unfold keys. tauto.
Qed.

End Dict.

Lemma add_document_sequential (self : Store) (n : nat) (d : DocData) (now : str) :
  Spec.sequential self n ->
  fst (add_document self d now) = str_of_int (Z.of_nat n + 1)
  /\ Spec.sequential (snd (add_document self d now)) (S n)
  /\ get_all_documents (snd (add_document self d now))
     = get_all_documents self
       ++ [{| id := str_of_int (Z.of_nat n + 1); title := dd_title d;
              content := dd_content d; author := dd_author d;
              category := dd_category d;
              tags := match dd_tags d with Some ts => ts | None => [] end;
              created_at := now |}].
Proof.
  intros (Hn & Hk & Hid). unfold add_document. cbn [fst snd documents next_id].
  rewrite Hn. rewrite dict_set_fresh by (rewrite Hk; apply decimals_fresh).
  split; [reflexivity|]. split; [split; [|split]|].
  - cbn [next_id]. lia.
  - cbn [documents]. unfold keys in *. rewrite map_app, Hk, decimals_S.
    cbn [map fst]. do 3 f_equal. lia.
  - cbn [documents]. apply Forall_app. split; [assumption|].
    constructor; [reflexivity | constructor].
  - unfold get_all_documents, values. cbn [documents]. now rewrite map_app.
Qed.

Lemma add_all_sequential (ds : list (nat * DocData)) (clock : nat -> str)
      (self : Store) (n : nat) :
  Spec.sequential self n ->
  Spec.sequential
    (fold_left (fun self x => snd (add_document self (snd x) (clock (fst x)))) ds self)
    (n + length ds).
Proof.
  revert self n; induction ds as [|x ds IH]; intros self n H; cbn [fold_left length].
  - now rewrite Nat.add_0_r.
  - replace (n + S (length ds))%nat with (S n + length ds)%nat by lia.
    apply IH. now apply add_document_sequential.
Qed.

Lemma init_sequential (clock : nat -> str) : Spec.sequential (__init__ clock) 16.
Proof.
  unfold __init__, _initialize_sample_documents.
  change 16%nat with (0 + length (combine (seq 0 (length sample_docs)) sample_docs))%nat.
  apply add_all_sequential. repeat split. constructor.
Qed.

Lemma search_keeps_store (self : Store) (query : str) :
  snd (search_documents self query) = self.
Proof. reflexivity. Qed.

Lemma run_sequential (clock : nat -> str) (ops : list Spec.op) :
  Spec.sequential (Spec.run clock ops) (16 + Spec.adds ops).
Proof.
  unfold Spec.run, Spec.adds.
  induction ops as [|o ops IH] using rev_ind.
  - cbn [fold_left filter length]. rewrite Nat.add_0_r. apply init_sequential.
  - rewrite fold_left_app, filter_app, length_app. cbn [fold_left].
    destruct o; cbn [Spec.step Spec.is_add filter length];
      rewrite ?search_keeps_store, ?Nat.add_0_r; try assumption.
    replace (16 + (length (filter Spec.is_add ops) + 1))%nat
      with (S (16 + length (filter Spec.is_add ops))) by lia.
    now apply add_document_sequential.
Qed.

Lemma sequential_ids (self : Store) (n : nat) :
  Spec.sequential self n -> map id (get_all_documents self) = Spec.decimals n.
Proof.
  intros (_ & Hk & Hid). rewrite <- Hk. unfold get_all_documents, values, keys.
  rewrite map_map. apply map_ext_in. intros kv H.
  rewrite Forall_forall in Hid. now apply Hid.
Qed.

Lemma sequential_get (self : Store) (n : nat) (doc : Document) :
  Spec.sequential self n ->
  In doc (get_all_documents self) -> get_document self (id doc) = Some doc.
Proof.
  intros (_ & Hk & Hid) H. unfold get_all_documents, values in H.
  apply in_map_iff in H as ([k d] & E & H). cbn [snd] in E. subst d.
  rewrite Forall_forall in Hid. pose proof (Hid _ H) as E. cbn [fst snd] in E.
  rewrite E. apply dict_get_In; [|assumption].
  rewrite Hk. apply decimals_NoDup.
Qed.

(** C4: in every state the store reaches from its initialisation, whatever
    operations are run, the ids are pairwise different and are the decimal
    strings "1", "2", ... in the order of insertion: the 16 samples hold "1" to
    "16", the k-th later add is given "16+k", and [list()] is as long as the
    number of adds performed, samples included. *)
Theorem store_ids_sequential (clock : nat -> str) (ops : list Spec.op) :
  let self := Spec.run clock ops in
  NoDup (map id (get_all_documents self))
  /\ map id (get_all_documents self) = Spec.decimals (16 + Spec.adds ops)
  /\ keys (documents self) = map id (get_all_documents self)
  /\ length (get_all_documents self) = (length sample_docs + Spec.adds ops)%nat
  /\ length sample_docs = 16%nat
  /\ map id (get_all_documents (__init__ clock))
     = map String.list_ascii_of_string
         ["1"; "2"; "3"; "4"; "5"; "6"; "7"; "8"; "9"; "10"; "11"; "12"; "13";
          "14"; "15"; "16"]
  /\ (forall d now,
        fst (add_document self d now) = str_of_int (Z.of_nat (16 + Spec.adds ops) + 1)
        /\ map id (get_all_documents (snd (add_document self d now)))
           = map id (get_all_documents self)
             ++ [str_of_int (Z.of_nat (16 + Spec.adds ops) + 1)]).
Proof.
  intros self. pose proof (run_sequential clock ops) as H. fold self in H.
  pose proof (sequential_ids _ _ H) as Hids.
  split; [|split; [|split; [|split; [|split; [|split; [|intros d now; split]]]]]].
  - rewrite Hids. apply decimals_NoDup.
  - exact Hids.
  - rewrite Hids. apply H.
  - rewrite <- (length_map id), Hids. unfold Spec.decimals.
    now rewrite length_map, length_seq.
  - reflexivity.
  - rewrite (sequential_ids _ _ (init_sequential clock)). reflexivity.
  - now apply add_document_sequential.
  - destruct (add_document_sequential self _ d now H) as (_ & _ & E).
    rewrite E, map_app. reflexivity.
Qed.

(** ** Searching *)

Lemma startswith_spec (s p : str) : startswith s p = true <-> exists r, s = p ++ r.
Proof.
  revert p; induction s as [|y s IH]; intros [|x p]; cbn [startswith app].
  - split; [now exists [] | reflexivity].
  - split; [discriminate | now intros (r & [=])].
  - split; [now exists (y :: s) | reflexivity].
  - rewrite andb_true_iff, chr_eqb_eq, IH. split.
    + intros (-> & r & ->). now exists r.
    + intros (r & [= -> ->]). split; [reflexivity | now exists r].
Qed.

Lemma contains_spec (s q : str) : contains s q = true <-> Spec.Substring q s.
Proof.
  unfold Spec.Substring. induction s as [|c s IH]; cbn [contains].
  - rewrite orb_false_r, startswith_spec. split.
    + intros (r & E). now exists [], r.
    + intros (l & r & E). symmetry in E. apply app_eq_nil in E as (-> & E).
      now exists r.
  - rewrite orb_true_iff, startswith_spec, IH. split.
    + intros [(r & E) | (l & r & E)].
      * now exists [], r.
      * exists (c :: l), r. now rewrite E.
    + intros ([|c' l] & r & E).
      * left. now exists r.
      * right. injection E as _ E. now exists l, r.
Qed.

Lemma contains_empty (s : str) : contains s [] = true.
Proof. destruct s; cbn [contains]; now rewrite startswith_nil. Qed.

Lemma search_loop (f : Document -> bool) (docs acc : list Document) :
  fold_left (fun results doc => if f doc then results ++ [doc] else results) docs acc
  = acc ++ filter f docs.
Proof.
  revert acc; induction docs as [|d docs IH]; intros acc; cbn [fold_left filter].
  - now rewrite app_nil_r.
  - rewrite IH. destruct (f d); [|reflexivity].
    now rewrite <- app_assoc.
Qed.

Lemma matches_spec (query : str) (doc : Document) :
  matches query doc = true
  <-> Spec.Substring query (lower (title doc))
      \/ Spec.Substring query (lower (content doc))
      \/ exists tag, In tag (tags doc) /\ Spec.Substring query (lower tag).
Proof.
  unfold matches. rewrite !orb_true_iff, !contains_spec, existsb_exists.
  setoid_rewrite contains_spec. tauto.
Qed.

(** C5: [search] returns, in the order of insertion, exactly the stored
    documents for which the lowercased query occurs in the lowercased title,
    in the lowercased content or in a lowercased tag; the empty query returns
    every document; and the store is left as it was. *)
Theorem search_documents_spec (self : Store) (query : str) :
  search_documents self query
  = (filter (matches (lower query)) (get_all_documents self), self)
  /\ (forall doc,
        In doc (fst (search_documents self query))
        <-> In doc (get_all_documents self)
            /\ (Spec.Substring (lower query) (lower (title doc))
                \/ Spec.Substring (lower query) (lower (content doc))
                \/ exists tag, In tag (tags doc)
                               /\ Spec.Substring (lower query) (lower tag)))
  /\ search_documents self "" = (get_all_documents self, self).
Proof.
  assert (E : forall q, search_documents self q
              = (filter (matches (lower q)) (get_all_documents self), self)).
  { intros q. unfold search_documents. now rewrite search_loop. }
  split; [apply E|]. split.
  - intros doc. rewrite E. cbn [fst]. now rewrite filter_In, matches_spec.
  - rewrite E. f_equal. change (lower (String.list_ascii_of_string "")) with (@nil ascii).
    apply forallb_filter_id. apply forallb_forall. intros doc _.
    unfold matches. now rewrite contains_empty.
Qed.

(** ** Words and sentences *)

Lemma cons_head_concat (c : ascii) (ps : list str) :
  concat (cons_head c ps) = c :: concat ps.
Proof. destruct ps; reflexivity. Qed.

Lemma cons_head_not_nil (c : ascii) (ps : list str) : cons_head c ps <> [].
Proof. destruct ps; discriminate. Qed.


(** The words of [split] are its non-whitespace characters, in order. *)
Lemma split_concat (s : str) :
  concat (split s) = filter (fun c => negb (isspace c)) s.
Proof.
  induction s as [|c s IH]; [reflexivity|].
  cbn [split filter]. destruct (isspace c) eqn:E; cbn [negb]; [assumption|].
  destruct s as [|c' s']; [reflexivity|].
  destruct (isspace c'); [|rewrite cons_head_concat]; cbn [concat app]; now rewrite IH.
Qed.

Lemma split_words (s : str) :
  Forall (fun w => w <> [] /\ forallb (fun c => negb (isspace c)) w = true) (split s).
Proof.
  induction s as [|c s IH]; [constructor|].
  cbn [split]. destruct (isspace c) eqn:E; [assumption|].
  assert (Hc : [c] <> [] /\ forallb (fun c => negb (isspace c)) [c] = true).
  { split; [discriminate|]. cbn. now rewrite E. }
  destruct s as [|c' s']; [now constructor|].
  destruct (isspace c'); [now constructor|].
  destruct (split (c' :: s')) as [|w ws]; [now constructor|].
  inversion IH as [|? ? (_ & Hw) Hws]; subst. cbn [cons_head]. constructor; [|assumption].
  split; [discriminate|]. cbn [forallb]. now rewrite E.
Qed.

Lemma filter_truthy_split (s : str) : filter truthy (split s) = split s.
Proof.
  apply forallb_filter_id. apply forallb_forall. intros w Hw.
  pose proof (split_words s) as H. rewrite Forall_forall in H.
  destruct (H w Hw) as (Hne & _). now destruct w.
Qed.

Lemma get_words_split (text : str) : get_words text = split (clean_text text).
Proof. apply filter_truthy_split. Qed.

(** A text has a word as soon as a word character survives the cleaning. *)
Lemma get_words_nonempty (text : str) :
  get_words text <> [] <-> exists c, In c text /\ isword (lower_char c) = true.
Proof.
  rewrite get_words_split. split.
  - intros H.
    assert (N : concat (split (clean_text text)) <> []).
    { pose proof (split_words (clean_text text)) as F.
      destruct (split (clean_text text)) as [|w ws]; [congruence|].
      inversion F as [|? ? (Hw & _) _]; subst. destruct w; [congruence | discriminate]. }
    rewrite split_concat in N.
    destruct (filter (fun c => negb (isspace c)) (clean_text text)) as [|c r] eqn:E;
      [congruence|].
    assert (Hc : In c (filter (fun c => negb (isspace c)) (clean_text text)))
      by (rewrite E; now left).
    apply filter_In in Hc as (Hc & Hs).
    unfold clean_text, re_sub_delete_not, lower in Hc.
    apply filter_In in Hc as (Hc & Hk). apply in_map_iff in Hc as (c0 & <- & Hc0).
    exists c0. split; [assumption|].
    destruct (isspace (lower_char c0)); [discriminate|]. now rewrite orb_false_r in Hk.
  - intros (c0 & Hc0 & Hw) E.
    assert (Hc : In (lower_char c0) (concat (split (clean_text text)))).
    { rewrite split_concat. apply filter_In. split.
      - unfold clean_text, re_sub_delete_not, lower. apply filter_In. split.
        + now apply in_map.
        + now rewrite Hw.
      - revert Hw. generalize (lower_char c0).
        intros [[] [] [] [] [] [] [] []]; (reflexivity || discriminate). }
    now rewrite E in Hc.
Qed.

(** A character that is a word character once lowercased is neither
    whitespace nor a sentence terminator. *)
Lemma word_char_survives (c : ascii) :
  isword (lower_char c) = true -> isspace c = false /\ is_terminator c = false.
Proof.
  destruct c as [[] [] [] [] [] [] [] []]; (discriminate || (split; reflexivity)).
Qed.

Lemma re_split_runs_concat (cls : ascii -> bool) (s : str) :
  concat (re_split_runs cls s) = filter (fun c => negb (cls c)) s.
Proof.
  induction s as [|c s IH]; [reflexivity|].
  cbn [re_split_runs filter]. destruct (cls c) eqn:E; cbn [negb].
  - destruct s as [|c' s']; [reflexivity|]. now destruct (cls c').
  - rewrite cons_head_concat. now rewrite IH.
Qed.

Lemma lstrip_keeps (s : str) (c : ascii) :
  In c s -> isspace c = false -> In c (lstrip s).
Proof.
  induction s as [|x s IH]; [tauto|]. intros H Hc. cbn [lstrip].
  destruct (isspace x) eqn:E; [|assumption].
  destruct H as [-> | H]; [congruence | now apply IH].
Qed.

Lemma strip_keeps (s : str) (c : ascii) :
  In c s -> isspace c = false -> In c (strip s).
Proof.
  intros H Hc. unfold strip. apply -> in_rev. apply lstrip_keeps; [|assumption].
  apply -> in_rev. now apply lstrip_keeps.
Qed.


Lemma words_have_sentence (text : str) :
  get_words text <> [] -> get_sentences text <> [].
Proof.
  intros H. apply get_words_nonempty in H as (c & Hc & Hw).
  apply word_char_survives in Hw as (Hs & Ht).
  assert (Hp : In c (concat (re_split_runs is_terminator text))).
  { rewrite re_split_runs_concat. apply filter_In. now rewrite Ht. }
  apply in_concat in Hp as (p & Hp & Hcp).
  unfold get_sentences. intros E. apply map_eq_nil in E.
  assert (F : In p (filter (fun s => truthy (strip s)) (re_split_runs is_terminator text))).
  { apply filter_In. split; [assumption|].
    pose proof (strip_keeps p c Hcp Hs) as K. now destruct (strip p). }
  now rewrite E in F.
Qed.

(** ** Arithmetic on counts *)


Lemma len_pos {A : Type} (xs : list A) : xs <> [] -> 0 < len xs.
Proof. unfold len. destruct xs; cbn [length]; [congruence | lia]. Qed.

Lemma truthy_iff {A : Type} (xs : list A) : truthy xs = true <-> xs <> [].
Proof. destruct xs; cbn; split; congruence. Qed.

Lemma sum_from (xs : list Z) (a : Z) : fold_left Z.add xs a = a + sum xs.
Proof.
  unfold sum. revert a; induction xs as [|x xs IH]; intros a; cbn [fold_left].
  - lia.
  - rewrite IH, (IH (0 + x)). lia.
Qed.

Lemma sum_cons (x : Z) (xs : list Z) : sum (x :: xs) = x + sum xs.
Proof. unfold sum at 1. cbn [fold_left]. rewrite sum_from. lia. Qed.

Lemma sum_app (xs ys : list Z) : sum (xs ++ ys) = sum xs + sum ys.
Proof.
  induction xs as [|x xs IH]; [reflexivity|].
  cbn [app]. rewrite !sum_cons, IH. lia.
Qed.

Lemma sum_ones {A : Type} (xs : list A) : sum (map (fun _ => 1) xs) = len xs.
Proof.
  unfold len. induction xs as [|x xs IH]; [reflexivity|].
  cbn [map length]. rewrite sum_cons, IH. lia.
Qed.

Lemma truediv_ok (a b : Z) : b <> 0 -> truediv a b = Ok (nearest_double a b).
Proof. unfold truediv. intros H. apply Z.eqb_neq in H. now rewrite H. Qed.

(** ** Comparison of floats *)

Lemma SFcompare_antisym (x y : spec_float) :
  SFcompare y x = option_map CompOpp (SFcompare x y).
Proof.
  destruct x as [[]|[]| |[] mx ex], y as [[]|[]| |[] my ey]; try reflexivity;
    cbn [SFcompare option_map]; rewrite (Z.compare_antisym ex ey);
    destruct (ex ?= ey); cbn [CompOpp]; try reflexivity;
    fold (Pos.compare mx my); fold (Pos.compare my mx);
    rewrite (Pos.compare_antisym mx my); now destruct (mx ?= my)%positive.
Qed.

Lemma float_ltb_asym (x y : float) : (x <? y)%float = true -> (y <? x)%float = false.
Proof.
  rewrite !ltb_spec. unfold SFltb. rewrite (SFcompare_antisym (Prim2SF x) (Prim2SF y)).
  now destruct (SFcompare (Prim2SF x) (Prim2SF y)) as [[]|].
Qed.

(** ** Sentiment *)

(** C2: on a text with at least one word, [analyze] labels it "positive" with
    the positive score as confidence when that score is the larger, "negative"
    with the negative score when that one is the larger, and otherwise
    "neutral" with confidence 0.5, also when the scores are equal and not zero
    ("good bad"); the neutral score is 1 minus the two scores, unclamped (on
    four positive words and a negative one the difference is below zero and
    is returned as -0.0); the three scores and the confidence are rounded to
    3 decimals. *)
Theorem analyze_sentiment_spec (text : str) :
  get_words text <> [] ->
  let p := Spec.positive_score text in
  let n := Spec.negative_score text in
  exists r,
    analyze_sentiment text = Ok r
    /\ scores r = {| positive := Float (float_round p 3);
                     negative := Float (float_round n 3);
                     neutral := Float (float_round (1 - p - n) 3) |}
    /\ ((n <? p)%float = true ->
        sentiment r = "positive" /\ confidence r = Float (float_round p 3))
    /\ ((p <? n)%float = true ->
        sentiment r = "negative" /\ confidence r = Float (float_round n 3))
    /\ ((n <? p)%float = false -> (p <? n)%float = false ->
        sentiment r = "neutral" /\ confidence r = Float 0.5)
    /\ analyze_sentiment "good bad"
       = Ok {| sentiment := "neutral"; confidence := Float 0.5;
               scores := {| positive := Float 0.5; negative := Float 0.5;
                            neutral := Float 0 |} |}
    /\ (1 - Spec.positive_score "good good good good bad"
          - Spec.negative_score "good good good good bad" <? 0)%float = true
    /\ analyze_sentiment "good good good good bad"
       = Ok {| sentiment := "positive"; confidence := Float 0.8;
               scores := {| positive := Float 0.8; negative := Float 0.2;
                            neutral := Float neg_zero |} |}.
Proof.
  intros H p n.
  assert (X : analyze_sentiment "good bad"
       = Ok {| sentiment := "neutral"; confidence := Float 0.5;
               scores := {| positive := Float 0.5; negative := Float 0.5;
                            neutral := Float 0 |} |}
    /\ (1 - Spec.positive_score "good good good good bad"
          - Spec.negative_score "good good good good bad" <? 0)%float = true
    /\ analyze_sentiment "good good good good bad"
       = Ok {| sentiment := "positive"; confidence := Float 0.8;
               scores := {| positive := Float 0.8; negative := Float 0.2;
                            neutral := Float neg_zero |} |})
    by (split; [|split]; vm_compute; reflexivity).
  unfold analyze_sentiment. rewrite !sum_ones.
  apply len_pos in H. destruct (len (get_words text) =? 0) eqn:E; [lia|].
  rewrite !truediv_ok by lia. cbn [bind].
  fold (Spec.positive_count text) (Spec.negative_count text).
  fold (Spec.positive_score text) (Spec.negative_score text). fold p n.
  destruct (n <? p)%float eqn:Hp.
  - eexists. split; [reflexivity|]. cbn [scores sentiment confidence round].
    split; [reflexivity|]. split; [now split|]. split; [|split; [discriminate | exact X]].
    intros Hn. apply float_ltb_asym in Hn. congruence.
  - destruct (p <? n)%float eqn:Hn.
    + eexists. split; [reflexivity|]. cbn [scores sentiment confidence round].
      split; [reflexivity|]. split; [discriminate|]. split; [now split|].
      split; [discriminate | exact X].
    + eexists. split; [reflexivity|]. cbn [scores sentiment confidence round].
      split; [reflexivity|]. split; [discriminate|]. split; [discriminate|].
      split; [now split | exact X].
Qed.

Lemma analyze_sentiment_spec_witness :
  get_words "good good bad" <> []
  /\ exists r, analyze_sentiment "good good bad" = Ok r
              /\ sentiment r = "positive"
              /\ confidence r = Float 0.667.
Proof.
  assert (H : get_words "good good bad" <> []) by (vm_compute; discriminate).
  split; [exact H|].
  destruct (analyze_sentiment_spec "good good bad" H) as (r & E & _ & P & _).
  exists r. split; [exact E|]. apply P. reflexivity.
Defined.


(** ** Rounding to hundredths stays within the clamp *)

Lemma digits2_pos_bound (m : BinNums.positive) : Zpos m < 2 ^ Zpos (digits2_pos m).
Proof.
  induction m as [m IH|m IH|]; cbn [digits2_pos]; [| |reflexivity];
    rewrite Pos2Z.inj_succ, Z.pow_succ_r by lia; lia.
Qed.

Lemma round_half_even_range (n d K : Z) :
  0 < d -> 0 <= n <= K * d -> 0 <= round_half_even n d <= K.
Proof.
  intros Hd Hn. unfold round_half_even.
  pose proof (Z.div_mod n d ltac:(lia)) as E.
  pose proof (Z.mod_pos_bound n d Hd) as B.
  assert (Q0 : 0 <= n / d) by (apply Z.div_pos; lia).
  assert (Q1 : n / d < K \/ (n / d = K /\ n mod d = 0)) by nia.
  destruct (2 * (n mod d) ?= d) eqn:C.
  - apply Z.compare_eq in C. destruct (Z.even (n / d)); lia.
  - lia.
  - apply Z.compare_gt_iff in C. lia.
Qed.

Lemma all_from_spec (count : nat) (k : Z) (test : Z -> bool) :
  Spec.all_from count k test = true ->
  forall j, k <= j < k + Z.of_nat count -> test j = true.
Proof.
  revert k; induction count as [|count IH]; intros k H j Hj; [lia|].
  cbn [Spec.all_from] in H. apply andb_true_iff in H as (H0 & H).
  destruct (Z.eq_dec j k) as [->|N]; [assumption|].
  apply (IH (k + 1) H). lia.
Qed.

Lemma hundredths_in_range (k : Z) :
  0 <= k <= 10000 ->
  (0 <=? nearest_double k 100)%float = true
  /\ (nearest_double k 100 <=? 100)%float = true.
Proof.
  intros H.
  assert (A : Spec.all_from (Z.to_nat 10001) 0
                (fun i => let y := nearest_double i 100 in
                          (0 <=? y)%float && (y <=? 100)%float) = true)
    by (vm_compute; reflexivity).
  apply andb_true_iff. apply (all_from_spec _ _ _ A k). lia.
Qed.

Lemma SFltb_zero_l (y : spec_float) :
  SFltb (S754_zero false) y = true ->
  y = S754_infinity false \/ exists m e, y = S754_finite false m e.
Proof.
  destruct y as [s|[]| |[] m e]; try discriminate; intros _; [now left|].
  right. now exists m, e.
Qed.

Lemma SFltb_finite (m M : BinNums.positive) (e E : Z) :
  SFltb (S754_finite false m e) (S754_finite false M E) = true ->
  e < E \/ (e = E /\ Zpos m < Zpos M).
Proof.
  unfold SFltb. cbn [SFcompare]. destruct (Z.compare_spec e E) as [C|C|C].
  - fold (Pos.compare m M). destruct (Pos.compare_spec m M) as [D|D|D]; try discriminate.
    intros _. right. split; [assumption | lia].
  - intros _. now left.
  - discriminate.
Qed.

(** A double strictly between 0 and 100 is still within [0, 100] once it is
    rounded to two decimals. *)
Lemma float_round_range (x : float) :
  (0 <? x)%float = true -> (x <? 100)%float = true ->
  (0 <=? float_round x 2)%float = true /\ (float_round x 2 <=? 100)%float = true.
Proof.
  rewrite !ltb_spec. intros H0 H1. pose proof (Prim2SF_valid x) as V.
  change (Prim2SF 0) with (S754_zero false) in H0.
  change (Prim2SF 100) with (S754_finite false 7036874417766400 (-46)) in H1.
  unfold float_round.
  apply SFltb_zero_l in H0 as [E | (m & e & E)]; rewrite E in *; [discriminate H1|].
  apply SFltb_finite in H1.
  cbn [valid_binary] in V. unfold bounded, canonical_mantissa, fexp in V.
  apply andb_true_iff in V as (V & _). apply Z.eqb_eq in V.
  unfold prec, emin, emax in V.
  pose proof (digits2_pos_bound m) as D.
  assert (Hm : e < 0 /\ Zpos m * 100 <= 10000 * 2 ^ (- e)).
  { destruct H1 as [C | (-> & C)].
    - assert (P1 : 2 ^ Zpos (digits2_pos m) <= 2 ^ 53) by (apply Z.pow_le_mono_r; lia).
      assert (P2 : 2 ^ 47 <= 2 ^ (- e)) by (apply Z.pow_le_mono_r; lia).
      change (2 ^ 53) with 9007199254740992 in P1.
      change (2 ^ 47) with 140737488355328 in P2. lia.
    - change (2 ^ (- -46)) with 70368744177664. lia. }
  destruct Hm as (He & Hm). destruct (0 <=? e) eqn:C; [lia|].
  cbv zeta. change (10 ^ Z.of_nat 2) with 100.
  apply hundredths_in_range. apply round_half_even_range.
  - apply Z.pow_pos_nonneg; lia.
  - lia.
Qed.

(** ** Readability *)

Lemma difficulty_of_bucket (score : num) : difficulty_of score = Spec.bucket score.
Proof.
  unfold difficulty_of, Spec.bucket, Spec.thresholds. cbn [find fst snd].
  repeat match goal with
         | |- context [num_leb (Int ?t) score] => destruct (num_leb (Int t) score)
         end; reflexivity.
Qed.

(** What [max(0, min(100, x))] is on a float [x]. *)
Lemma clamp_cases (x : float) :
  max (Int 0) (min (Int 100) (Float x))
  = if (x <? 100)%float then (if (0 <? x)%float then Float x else Int 0) else Int 100.
Proof.
  unfold min, max, num_ltb. cbn [to_float].
  change (float_of_int 100) with 100%float. change (float_of_int 0) with 0%float.
  destruct (x <? 100)%float; [|reflexivity].
  cbn [to_float]. now destruct (0 <? x)%float.
Qed.

Lemma floor_cases (x : float) :
  max (Int 0) (Float x) = if (0 <? x)%float then Float x else Int 0.
Proof.
  unfold max, num_ltb. cbn [to_float]. now change (float_of_int 0) with 0%float.
Qed.

Lemma clamp_round_range (x : float) :
  let c := round (max (Int 0) (min (Int 100) (Float x))) 2 in
  num_leb (Int 0) c = true /\ num_leb c (Int 100) = true.
Proof.
  rewrite clamp_cases. destruct (x <? 100)%float eqn:H1; [|now split].
  destruct (0 <? x)%float eqn:H0; [|now split].
  cbn [round num_leb to_float].
  change (float_of_int 100) with 100%float. change (float_of_int 0) with 0%float.
  now apply float_round_range.
Qed.

Lemma calculate_readability_ok (text : str) :
  get_words text <> [] ->
  calculate_readability text
  = Ok {| flesch_reading_ease :=
            round (max (Int 0) (min (Int 100) (Float (Spec.reading_ease text)))) 2;
          flesch_grade_level := round (max (Int 0) (Float (Spec.grade_level text))) 2;
          avg_sentence_length := Float (float_round (Spec.words_per_sentence text) 2);
          avg_word_length := Float (float_round (Spec.letters_per_word text) 2);
          difficulty :=
            difficulty_of (max (Int 0) (min (Int 100) (Float (Spec.reading_ease text)))) |}.
Proof.
  intros Hw. pose proof (words_have_sentence text Hw) as Hs.
  unfold calculate_readability.
  destruct (truthy_iff (get_sentences text)) as [_ ->]; [|assumption].
  destruct (truthy_iff (get_words text)) as [_ ->]; [|assumption].
  cbn [negb orb]. apply len_pos in Hw, Hs.
  rewrite !truediv_ok by lia. reflexivity.
Qed.

Lemma calculate_readability_unknown (text : str) :
  get_words text = [] ->
  calculate_readability text
  = Ok {| flesch_reading_ease := Int 0; flesch_grade_level := Int 0;
          avg_sentence_length := Int 0; avg_word_length := Int 0;
          difficulty := "unknown" |}.
Proof.
  intros E. unfold calculate_readability. rewrite E. cbn [truthy negb].
  now rewrite orb_true_r.
Qed.

(** C7: on a text with a word and a sentence, the reading ease is
    206.835 - 1.015 x (words per sentence) - 84.6 x (syllables per word) brought
    into [0, 100], the grade level is 0.39 x (words per sentence)
    + 11.8 x (syllables per word) - 15.59 raised to 0 when it is not positive
    and left alone otherwise, both are rounded to 2 decimals, and the
    difficulty is the bucket of the clamped ease at 90/80/70/60/50/30; the
    returned ease is always within [0, 100], while one sentence of 300 words
    has a grade level above 100. *)
Theorem calculate_readability_spec :
  (forall text : str,
      get_words text <> [] -> get_sentences text <> [] ->
      let ease := Spec.reading_ease text in
      let grade := Spec.grade_level text in
      let clamped :=
        if (ease <? 100)%float
        then (if (0 <? ease)%float then Float ease else Int 0)
        else Int 100 in
      exists r,
        calculate_readability text = Ok r
        /\ flesch_reading_ease r = round clamped 2
        /\ flesch_grade_level r
           = round (if (0 <? grade)%float then Float grade else Int 0) 2
        /\ difficulty r = Spec.bucket clamped
        /\ num_leb (Int 0) (flesch_reading_ease r) = true
        /\ num_leb (flesch_reading_ease r) (Int 100) = true)
  /\ (exists r,
        calculate_readability Spec.long_sentence = Ok r
        /\ flesch_grade_level r = Float 113.21
        /\ num_ltb (Int 100) (flesch_grade_level r) = true
        /\ flesch_reading_ease r = Int 0).
Proof.
  split.
  - intros text Hw _ ease grade clamped.
    eexists. split; [now apply calculate_readability_ok|].
    cbn [flesch_reading_ease flesch_grade_level difficulty].
    fold ease grade. rewrite difficulty_of_bucket, floor_cases.
    pose proof (clamp_round_range ease) as R. cbv zeta in R.
    rewrite clamp_cases in *. fold clamped in R |- *.
    repeat split; apply R.
  - eexists. split; [vm_compute; reflexivity|]. repeat split.
Qed.

Lemma calculate_readability_spec_witness :
  get_words "The cat sat on the mat. It was happy." <> []
  /\ exists r,
       calculate_readability "The cat sat on the mat. It was happy." = Ok r
       /\ flesch_reading_ease r = Int 100
       /\ difficulty r = "very easy".
Proof.
  assert (Hw : get_words "The cat sat on the mat. It was happy." <> [])
    by (vm_compute; discriminate).
  assert (Hs : get_sentences "The cat sat on the mat. It was happy." <> [])
    by (vm_compute; discriminate).
  split; [exact Hw|].
  destruct calculate_readability_spec as [H _].
  destruct (H _ Hw Hs) as (r & E & He & _ & Hd & _).
  exists r. split; [exact E|]. split; [exact He | exact Hd].
Defined.

Lemma difficulty_of_known (score : num) : difficulty_of score <> "unknown".
Proof.
  unfold difficulty_of.
  repeat match goal with
         | |- context [num_leb (Int ?t) score] => destruct (num_leb (Int t) score)
         end; discriminate.
Qed.

(** ** Statistics *)

Lemma lstrip_all_space (s : str) : forallb isspace s = true -> lstrip s = [].
Proof.
  induction s as [|c s IH]; [reflexivity|]. cbn [forallb lstrip].
  intros H. apply andb_true_iff in H as (-> & H). now apply IH.
Qed.

(** A piece is non-empty after trimming when it holds a character that is
    not whitespace. *)
Lemma strip_truthy (s : str) :
  truthy (strip s) = existsb (fun c => negb (isspace c)) s.
Proof.
  destruct (existsb (fun c => negb (isspace c)) s) eqn:E.
  - apply existsb_exists in E as (c & Hc & Hs). apply negb_true_iff in Hs.
    pose proof (strip_keeps s c Hc Hs) as K. now destruct (strip s).
  - assert (A : forallb isspace s = true).
    { apply forallb_forall. intros c Hc.
      destruct (isspace c) eqn:Hs; [reflexivity|].
      assert (T : existsb (fun c => negb (isspace c)) s = true)
        by (apply existsb_exists; exists c; now rewrite Hs).
      congruence. }
    unfold strip. now rewrite (lstrip_all_space s A).
Qed.

Lemma str_ind2 (P : str -> Prop) :
  P [] -> (forall c, P [c]) ->
  (forall c c' s, P s -> P (c' :: s) -> P (c :: c' :: s)) ->
  forall s, P s.
Proof.
  intros H0 H1 H2 s.
  assert (A : P s /\ forall c, P (c :: s)).
  { induction s as [|a s (IH1 & IH2)]; [now split|].
    split; [apply IH2|]. intros c. now apply H2. }
  apply A.
Qed.

Lemma split2_cons2 (c1 c2 c c' : ascii) (s : str) :
  split2 c1 c2 (c :: c' :: s)
  = if chr_eqb c c1 && chr_eqb c' c2 then [] :: split2 c1 c2 s
    else cons_head c (split2 c1 c2 (c' :: s)).
Proof. reflexivity. Qed.

Lemma split2_not_nil (c1 c2 : ascii) (s : str) : split2 c1 c2 s <> [].
Proof.
  destruct s as [|c [|c' s]]; [discriminate | discriminate |].
  rewrite split2_cons2.
  destruct (chr_eqb c c1 && chr_eqb c' c2); [discriminate | apply cons_head_not_nil].
Qed.

Lemma join_cons_head (sep : str) (c : ascii) (ps : list str) :
  ps <> [] -> Spec.join sep (cons_head c ps) = c :: Spec.join sep ps.
Proof. destruct ps as [|p [|q ps]]; [congruence | reflexivity | reflexivity]. Qed.

(** The pieces of [split2], put together with the separator between them,
    are the text again. *)
Lemma split2_join (c1 c2 : ascii) (s : str) :
  Spec.join [c1; c2] (split2 c1 c2 s) = s.
Proof.
  induction s as [| c | c c' s IH IH'] using str_ind2; [reflexivity | reflexivity |].
  rewrite split2_cons2. destruct (chr_eqb c c1 && chr_eqb c' c2) eqn:E.
  - apply andb_true_iff in E as (E1 & E2). apply chr_eqb_eq in E1, E2. subst.
    cbn [Spec.join]. pose proof (split2_not_nil c1 c2 s) as N.
    destruct (split2 c1 c2 s) as [|p ps] eqn:S; [congruence|].
    cbn [app]. now rewrite IH.
  - rewrite join_cons_head by apply split2_not_nil. now rewrite IH'.
Qed.

Lemma split2_head_prefix (c1 c2 : ascii) (s : str) :
  exists p ps r, split2 c1 c2 s = p :: ps /\ s = p ++ r
                 /\ (p = [] -> s = [] \/ startswith s [c1; c2] = true).
Proof.
  induction s as [| c | c c' s IH IH'] using str_ind2.
  - exists [], [], []. repeat split. now left.
  - exists [c], [], []. repeat split. discriminate.
  - rewrite split2_cons2. destruct (chr_eqb c c1 && chr_eqb c' c2) eqn:E.
    + exists [], (split2 c1 c2 s), (c :: c' :: s). repeat split.
      intros _. right. cbn [startswith]. apply andb_true_iff in E as (E1 & E2).
      apply chr_eqb_eq in E1, E2. subst. now rewrite !chr_eqb_refl, startswith_nil.
    + destruct IH' as (p & ps & r & S & A & _). rewrite S. cbn [cons_head].
      exists (c :: p), ps, r. repeat split; [now rewrite A | discriminate].
Qed.

(** No piece of [split2] holds the separator. *)
Lemma split2_pieces (c1 c2 : ascii) (s : str) :
  Forall (fun p => contains p [c1; c2] = false) (split2 c1 c2 s).
Proof.
  induction s as [| c | c c' s IH IH'] using str_ind2.
  - repeat constructor.
  - repeat constructor. cbn. now rewrite !andb_false_r.
  - rewrite split2_cons2. destruct (chr_eqb c c1 && chr_eqb c' c2) eqn:E.
    + constructor; [reflexivity | assumption].
    + destruct (split2_head_prefix c1 c2 (c' :: s)) as (p & ps & r & S & A & Z).
      rewrite S in IH' |- *. cbn [cons_head].
      inversion IH' as [|? ? Hp Hps]; subst. constructor; [|assumption].
      cbn [contains]. rewrite Hp, orb_false_r.
      destruct p as [|x p].
      * cbn. now rewrite andb_false_r.
      * injection A as <- _. cbn [startswith]. rewrite startswith_nil, andb_true_r.
        unfold chr_eqb in *. rewrite (Ascii.eqb_sym c1 c), (Ascii.eqb_sym c2 c'). exact E.
Qed.

Lemma remove_char_length (c : ascii) (s : str) :
  len (remove_char c s) = len s - Z.of_nat (count_occ ascii_dec s c).
Proof.
  unfold len, remove_char. induction s as [|x s IH]; [reflexivity|].
  cbn [filter count_occ length]. destruct (ascii_dec x c) as [->|N].
  - rewrite chr_eqb_refl. cbn [negb]. lia.
  - destruct (chr_eqb x c) eqn:E; [apply chr_eqb_eq in E; congruence|].
    cbn [negb length]. lia.
Qed.

Lemma get_text_stats_ok (text : str) :
  get_text_stats text
  = Ok {| word_count := len (get_words text);
          sentence_count := len (get_sentences text);
          character_count := len text;
          character_count_no_spaces := len (remove_char " " text);
          paragraph_count :=
            len (filter (fun p => truthy (strip p)) (split2 "010" "010" text));
          avg_words_per_sentence :=
            if truthy (get_sentences text)
            then Float (float_round (Spec.words_per_sentence text) 2)
            else Int 0 |}.
Proof.
  unfold get_text_stats, Spec.words_per_sentence.
  destruct (get_sentences text) as [|x l] eqn:E; [reflexivity|].
  cbn [truthy]. rewrite truediv_ok; [reflexivity|].
  unfold len. cbn [length]. lia.
Qed.

(** C9: [stats] counts every character of the raw text, counts the
    characters other than the space (a tab and a line feed still count), counts
    as paragraphs the blocks between blank lines that hold something besides
    whitespace, and gives the words per sentence rounded to 2 decimals, or 0
    when there is no sentence. *)
Theorem get_text_stats_spec (text : str) :
  exists st,
    get_text_stats text = Ok st
    /\ word_count st = len (get_words text)
    /\ sentence_count st = len (get_sentences text)
    /\ character_count st = len text
    /\ character_count_no_spaces st
       = len text - Z.of_nat (count_occ ascii_dec text " "%char)
    /\ (let blocks := split2 Spec.LF Spec.LF text in
        Spec.join Spec.blank_line blocks = text
        /\ Forall (fun p => contains p Spec.blank_line = false) blocks
        /\ paragraph_count st
           = len (filter (existsb (fun c => negb (isspace c))) blocks))
    /\ (get_sentences text = [] -> avg_words_per_sentence st = Int 0)
    /\ (get_sentences text <> [] ->
        avg_words_per_sentence st
        = Float (float_round (Spec.words_per_sentence text) 2))
    /\ (exists st',
          get_text_stats Spec.mixed_whitespace = Ok st'
          /\ character_count st' = 7
          /\ character_count_no_spaces st' = 6).
Proof.
  eexists. split; [apply get_text_stats_ok|].
  cbn [word_count sentence_count character_count character_count_no_spaces
       paragraph_count avg_words_per_sentence].
  split; [reflexivity|]. split; [reflexivity|]. split; [reflexivity|].
  split; [apply remove_char_length|]. split; [|split; [|split]].
  - cbv zeta. split; [apply split2_join|]. split; [apply split2_pieces|].
    f_equal. apply filter_ext. intros p. apply strip_truthy.
  - now intros ->.
  - intros H. apply truthy_iff in H. now rewrite H.
  - eexists. split; [vm_compute; reflexivity|]. now split.
Qed.

(** C10: a text with a word has a sentence; so [readability] answers with
    its all-zero "unknown" record exactly when the text has no word, the
    division by the number of sentences is never a division by zero when there
    is a word, and neither [readability] nor [stats] raises on any text. *)
Theorem words_guard_sentences (text : str) :
  (get_words text <> [] -> get_sentences text <> [])
  /\ (calculate_readability text = Ok Spec.unknown <-> get_words text = [])
  /\ (forall r, calculate_readability text = Ok r ->
                (difficulty r = "unknown" <-> get_words text = []))
  /\ (get_words text <> [] ->
      len (get_sentences text) <> 0
      /\ truediv (len (get_words text)) (len (get_sentences text))
         = Ok (Spec.words_per_sentence text))
  /\ (exists r, calculate_readability text = Ok r)
  /\ (exists st, get_text_stats text = Ok st).
Proof.
  split; [apply words_have_sentence|].
  assert (D : get_words text = [] \/ get_words text <> [])
    by (destruct (get_words text); [now left | right; discriminate]).
  split; [|split; [|split; [|split]]].
  - split; [|apply calculate_readability_unknown].
    destruct D as [E | N]; [intros _; exact E|].
    rewrite (calculate_readability_ok text N). intros H. discriminate H.
  - intros r. destruct D as [E | N].
    + rewrite (calculate_readability_unknown text E). intros [= <-]. now split.
    + rewrite (calculate_readability_ok text N). intros [= <-].
      cbn [difficulty]. split; [|congruence].
      intros H. now apply difficulty_of_known in H.
  - intros N. pose proof (len_pos _ (words_have_sentence text N)) as P.
    split; [lia|]. apply truediv_ok. lia.
  - destruct D as [E | N]; eexists;
      [now apply calculate_readability_unknown | now apply calculate_readability_ok].
  - eexists. apply get_text_stats_ok.
Qed.

(** ** Counting tokens *)

Lemma str_eqb_sym (a b : str) : str_eqb a b = str_eqb b a.
Proof.
  destruct (str_eqb a b) eqn:E.
  - apply str_eqb_eq in E. subst. symmetry. apply str_eqb_refl.
  - apply str_eqb_neq in E. symmetry. apply str_eqb_neq. congruence.
Qed.

Lemma mem_false (w : str) (ws : list str) : mem w ws = false <-> ~ In w ws.
Proof.
  rewrite <- mem_In. destruct (mem w ws); split; congruence.
Qed.

Lemma count_app (w : str) (a b : list str) :
  Spec.count w (a ++ b) = Spec.count w a + Spec.count w b.
Proof. unfold Spec.count, len. rewrite filter_app, length_app. lia. Qed.

Lemma count_cons (w x : str) (ws : list str) :
  Spec.count w (x :: ws) = (if str_eqb w x then 1 else 0) + Spec.count w ws.
Proof.
  unfold Spec.count, len. cbn [filter]. destruct (str_eqb w x); cbn [length]; lia.
Qed.

Lemma count_nonneg (w : str) (ws : list str) : 0 <= Spec.count w ws.
Proof. unfold Spec.count, len. lia. Qed.

Lemma count_notin (w : str) (ws : list str) : ~ In w ws -> Spec.count w ws = 0.
Proof.
  induction ws as [|x ws IH]; [reflexivity|]. cbn [In]. intros H.
  rewrite count_cons, IH by tauto.
  destruct (str_eqb w x) eqn:E; [|reflexivity].
  apply str_eqb_eq in E. subst. tauto.
Qed.

Lemma count_in (w : str) (ws : list str) : In w ws -> 0 < Spec.count w ws.
Proof.
  induction ws as [|x ws IH]; [contradiction|]. rewrite count_cons.
  pose proof (count_nonneg w ws). intros [-> | H'].
  - rewrite str_eqb_refl. lia.
  - apply IH in H'. destruct (str_eqb w x); lia.
Qed.

Lemma distinct_In (w : str) (ws : list str) : In w (Spec.distinct ws) <-> In w ws.
Proof.
  induction ws as [|x ws IH]; [reflexivity|]. cbn [Spec.distinct In].
  rewrite filter_In, IH. destruct (str_eqb x w) eqn:E.
  - apply str_eqb_eq in E. subst. cbn. tauto.
  - cbn. apply str_eqb_neq in E. tauto.
Qed.

Lemma distinct_NoDup (ws : list str) : NoDup (Spec.distinct ws).
Proof.
  induction ws as [|x ws IH]; [constructor|]. cbn [Spec.distinct]. constructor.
  - rewrite filter_In, str_eqb_refl. cbn. intuition congruence.
  - now apply NoDup_filter.
Qed.

Lemma distinct_snoc (ws : list str) (w : str) :
  Spec.distinct (ws ++ [w])
  = if mem w ws then Spec.distinct ws else Spec.distinct ws ++ [w].
Proof.
  induction ws as [|x ws IH]; [reflexivity|].
  cbn [app Spec.distinct]. rewrite IH. unfold mem. cbn [existsb]. fold (mem w ws).
  rewrite (str_eqb_sym w x). destruct (mem w ws); cbn [orb].
  - now rewrite orb_true_r.
  - rewrite filter_app. cbn [filter].
    destruct (str_eqb x w); cbn [negb orb]; [now rewrite app_nil_r | reflexivity].
Qed.

Section CounterShape.
Variable g : str -> Z.

Lemma dict_get_tabulate (D : list str) (w : str) :
  dict_get (map (fun x => (x, g x)) D) w = if mem w D then Some (g w) else None.
Proof.
  induction D as [|d D IH]; [reflexivity|].
  cbn [map dict_get]. unfold mem. cbn [existsb]. fold (mem w D).
  rewrite (str_eqb_sym w d). destruct (str_eqb d w) eqn:E; cbn [orb]; [|assumption].
  apply str_eqb_eq in E. now subst.
Qed.

Lemma dict_set_tabulate (D : list str) (w : str) (v : Z) :
  NoDup D ->
  dict_set (map (fun x => (x, g x)) D) w v
  = if mem w D
    then map (fun x => (x, if str_eqb x w then v else g x)) D
    else map (fun x => (x, g x)) D ++ [(w, v)].
Proof.
  induction D as [|d D IH]; intros ND; [reflexivity|].
  inversion ND as [|? ? Hd ND']; subst.
  cbn [map dict_set]. unfold mem. cbn [existsb]. fold (mem w D).
  rewrite (str_eqb_sym w d). destruct (str_eqb d w) eqn:E; cbn [orb].
  - apply str_eqb_eq in E. subst d. f_equal. apply map_ext_in. intros x Hx.
    destruct (str_eqb x w) eqn:E'; [|reflexivity].
    apply str_eqb_eq in E'. now subst.
  - rewrite (IH ND'). destruct (mem w D); reflexivity.
Qed.

End CounterShape.

Lemma Counter_snoc (ws : list str) (w : str) :
  Counter (ws ++ [w]) = counter_incr (Counter ws) w.
Proof. unfold Counter. now rewrite fold_left_app. Qed.

(** A [Counter] holds each token once, in the order the tokens are first
    met, with the number of its occurrences. *)
Lemma Counter_spec (ws : list str) :
  Counter ws = map (fun w => (w, Spec.count w ws)) (Spec.distinct ws).
Proof.
  induction ws as [|w ws IH] using rev_ind; [reflexivity|].
  rewrite Counter_snoc, IH. unfold counter_incr.
  rewrite dict_get_tabulate, dict_set_tabulate by apply distinct_NoDup.
  rewrite distinct_snoc.
  assert (M : mem w (Spec.distinct ws) = mem w ws).
  { destruct (mem w ws) eqn:E.
    - apply mem_In. apply distinct_In. now apply mem_In.
    - apply mem_false. rewrite distinct_In. now apply mem_false. }
  rewrite M. destruct (mem w ws) eqn:E.
  - apply map_ext. intros x. rewrite count_app, count_cons.
    change (Spec.count x []) with 0.
    destruct (str_eqb x w) eqn:E'; [|f_equal; lia].
    apply str_eqb_eq in E'. subst x. f_equal; lia.
  - rewrite map_app. cbn [map]. apply mem_false in E. f_equal.
    + apply map_ext_in. intros x Hx. rewrite distinct_In in Hx.
      rewrite count_app, count_cons. change (Spec.count x []) with 0.
      destruct (str_eqb x w) eqn:E'; [|f_equal; lia].
      apply str_eqb_eq in E'. now subst.
    + rewrite count_app, count_cons, str_eqb_refl, (count_notin w ws E). reflexivity.
Qed.

(** ** Ranking *)

Lemma insert_desc_In (x z : str * Z) (l : list (str * Z)) :
  In z (insert_desc x l) <-> z = x \/ In z l.
Proof.
  induction l as [|y l IH]; cbn [insert_desc In]; [intuition congruence|].
  destruct (snd y <=? snd x); cbn [In]; [intuition congruence|].
  rewrite IH. intuition congruence.
Qed.

Lemma insert_desc_perm (x : str * Z) (l : list (str * Z)) :
  Permutation (insert_desc x l) (x :: l).
Proof.
  induction l as [|y l IH]; cbn [insert_desc]; [reflexivity|].
  destruct (snd y <=? snd x); [reflexivity|].
  rewrite IH. apply perm_swap.
Qed.

Lemma sorted_desc_perm (l : list (str * Z)) : Permutation (sorted_desc l) l.
Proof.
  induction l as [|x l IH]; [reflexivity|]. cbn [sorted_desc fold_right].
  fold (sorted_desc l). rewrite insert_desc_perm. now constructor.
Qed.

Section Stable.
Variable R : str * Z -> str * Z -> Prop.

Let by_count_then := Spec.by_count_then R.

Lemma insert_desc_sorted (x : str * Z) (l : list (str * Z)) :
  StronglySorted by_count_then l -> Forall (R x) l ->
  StronglySorted by_count_then (insert_desc x l).
Proof.
  induction l as [|y l IH]; intros S F; cbn [insert_desc].
  - repeat constructor.
  - inversion S as [|? ? S' Fy]; subst. inversion F as [|? ? Rxy F']; subst.
    destruct (snd y <=? snd x) eqn:C.
    + apply Z.leb_le in C. constructor; [assumption|]. constructor.
      * unfold by_count_then, Spec.by_count_then.
        destruct (Z.eq_dec (snd y) (snd x)); [now right | left; lia].
      * rewrite Forall_forall in Fy, F' |- *. intros z Hz.
        pose proof (Fy z Hz) as Qz. pose proof (F' z Hz) as Rz.
        unfold by_count_then, Spec.by_count_then in *.
        destruct (Z.eq_dec (snd z) (snd x)); [now right | left; lia].
    + apply Z.leb_gt in C. constructor; [now apply IH|].
      rewrite Forall_forall in Fy |- *. intros z Hz.
      apply insert_desc_In in Hz as [-> | Hz]; [|now apply Fy].
      left. exact C.
Qed.

(** The sort is stable: it keeps the order [R] the list came in among
    entries of equal count. *)
Lemma sorted_desc_sorted (l : list (str * Z)) :
  StronglySorted R l -> StronglySorted by_count_then (sorted_desc l).
Proof.
  induction l as [|x l IH]; intros S; [constructor|].
  inversion S as [|? ? S' F]; subst. cbn [sorted_desc fold_right]. fold (sorted_desc l).
  apply insert_desc_sorted; [now apply IH|].
  rewrite Forall_forall in F |- *. intros z Hz. apply F.
  now apply (Permutation_in _ (sorted_desc_perm l)).
Qed.

End Stable.

Lemma StronglySorted_map_in {A B : Type} (f : A -> B) (R : A -> A -> Prop)
      (R' : B -> B -> Prop) (l : list A) :
  (forall a b, In a l -> In b l -> R a b -> R' (f a) (f b)) ->
  StronglySorted R l -> StronglySorted R' (map f l).
Proof.
  induction l as [|x l IH]; intros H S; [constructor|].
  inversion S as [|? ? S' F]; subst. cbn [map]. constructor.
  - apply IH; [|assumption]. intros a b Ha Hb. apply H; now right.
  - rewrite Forall_forall in F |- *. intros y Hy.
    apply in_map_iff in Hy as (z & <- & Hz). apply H; [now left | now right | now apply F].
Qed.

Lemma StronglySorted_filter {A : Type} (R : A -> A -> Prop) (f : A -> bool)
      (l : list A) :
  StronglySorted R l -> StronglySorted R (filter f l).
Proof.
  induction l as [|x l IH]; intros S; [constructor|].
  inversion S as [|? ? S' F]; subst. cbn [filter].
  destruct (f x); [|now apply IH]. constructor; [now apply IH|].
  rewrite Forall_forall in F |- *. intros y Hy. apply filter_In in Hy. now apply F.
Qed.

Lemma firstn_incl {A : Type} (n : nat) (l : list A) (x : A) :
  In x (firstn n l) -> In x l.
Proof.
  intros H. rewrite <- (firstn_skipn n l). apply in_or_app. now left.
Qed.


(** The tokens of [distinct] come in the order of their first occurrence. *)
Lemma distinct_sorted (ws : list str) :
  StronglySorted (fun a b => (Spec.first_index a ws < Spec.first_index b ws)%nat)
                 (Spec.distinct ws).
Proof.
  induction ws as [|x ws IH]; [constructor|]. cbn [Spec.distinct]. constructor.
  - rewrite <- (map_id (filter _ _)).
    apply (StronglySorted_map_in (fun a => a)
             (fun a b => (Spec.first_index a ws < Spec.first_index b ws)%nat));
      [|now apply StronglySorted_filter].
    intros a b Ha Hb H. apply filter_In in Ha as (_ & Ha), Hb as (_ & Hb).
    cbn [Spec.first_index]. apply negb_true_iff in Ha, Hb. rewrite Ha, Hb. lia.
  - apply Forall_forall. intros y Hy. apply filter_In in Hy as (_ & Hy).
    cbn [Spec.first_index]. apply negb_true_iff in Hy. rewrite Hy, str_eqb_refl. lia.
Qed.

(** ** Keywords *)

Lemma mapM_ok {A B : Type} (f : A -> result B) (g : A -> B) (xs : list A) :
  (forall x, In x xs -> f x = Ok (g x)) -> mapM f xs = Ok (map g xs).
Proof.
  induction xs as [|x xs IH]; intros H; [reflexivity|].
  cbn [mapM map]. rewrite (H x) by now left.
  rewrite IH; [reflexivity|]. intros y Hy. apply H. now right.
Qed.

Lemma extract_keywords_ok (text : str) (limit : Z) :
  extract_keywords text limit
  = Ok (map (Spec.keyword_of (len (Spec.kept_words text)))
            (most_common (Counter (Spec.kept_words text)) limit)).
Proof.
  unfold extract_keywords. fold (Spec.kept_words text).
  apply mapM_ok. intros [w c] _. unfold Spec.keyword_of. cbn [fst snd].
  destruct (0 <? len (Spec.kept_words text)) eqn:E; [|reflexivity].
  apply Z.ltb_lt in E. rewrite truediv_ok by lia. reflexivity.
Qed.

Lemma keep_spec (w : str) :
  keep w = true <-> ~ In w STOP_WORDS /\ 2 < len w.
Proof.
  unfold keep. rewrite andb_true_iff, negb_true_iff, mem_false, Z.ltb_lt. tauto.
Qed.

(** The ranking [most_common] reads its answer from: the kept tokens, each
    once, by falling count, equal counts in the order the tokens are first
    met. *)
Lemma ranking_spec (ws : list str) :
  let ranked := sorted_desc (items (Counter ws)) in
  NoDup (map fst ranked)
  /\ (forall w, In w (map fst ranked) <-> In w ws)
  /\ Forall (fun wc => snd wc = Spec.count (fst wc) ws) ranked
  /\ StronglySorted (Spec.ranks_before ws) (map fst ranked).
Proof.
  intros ranked.
  assert (P : Permutation ranked (map (fun w => (w, Spec.count w ws)) (Spec.distinct ws))).
  { unfold ranked, items. rewrite <- Counter_spec. apply sorted_desc_perm. }
  assert (Pk : Permutation (map fst ranked) (Spec.distinct ws)).
  { rewrite P, map_map. cbn [fst]. now rewrite map_id. }
  assert (F : Forall (fun wc => snd wc = Spec.count (fst wc) ws) ranked).
  { apply Forall_forall. intros wc H. apply (Permutation_in _ P) in H.
    apply in_map_iff in H as (w & <- & _). reflexivity. }
  split; [|split; [|split]].
  - apply (Permutation_NoDup (Permutation_sym Pk)). apply distinct_NoDup.
  - intros w. rewrite <- (distinct_In w ws).
    split; [apply (Permutation_in _ Pk) | apply (Permutation_in _ (Permutation_sym Pk))].
  - exact F.
  - apply (StronglySorted_map_in fst
             (Spec.by_count_then
                (fun x y => (Spec.first_index (fst x) ws < Spec.first_index (fst y) ws)%nat))).
    + rewrite Forall_forall in F. intros a b Ha Hb Q.
      unfold Spec.ranks_before. rewrite <- (F a Ha), <- (F b Hb).
      destruct Q as [Q | (Q & Q')]; [now left | right; split; [lia | assumption]].
    + unfold ranked, items. rewrite Counter_spec. apply sorted_desc_sorted.
      apply (StronglySorted_map_in (fun w => (w, Spec.count w ws))
               (fun a b => (Spec.first_index a ws < Spec.first_index b ws)%nat));
        [|apply distinct_sorted].
      intros a b _ _ H. exact H.
Qed.

Lemma count_filter (f : str -> bool) (w : str) (ws : list str) :
  f w = true -> Spec.count w (filter f ws) = Spec.count w ws.
Proof.
  intros H. induction ws as [|x ws IH]; [reflexivity|].
  cbn [filter]. destruct (f x) eqn:E; rewrite ?count_cons, IH; [reflexivity|].
  destruct (str_eqb w x) eqn:E'; [|reflexivity].
  apply str_eqb_eq in E'. congruence.
Qed.

(** C3: [extract] keeps exactly the words that are not stop words and are
    longer than 2 ("the" is dropped as a stop word), ranks the kept words by
    falling frequency, equal frequencies in the order the words are first met,
    and returns the first [limit] of them with their frequencies: none for
    [limit <= 0], all of them when [limit] is at least their number. *)
Theorem extract_keywords_spec (text : str) (limit : Z) :
  let kept := Spec.kept_words text in
  (forall w, In w kept <-> In w (get_words text) /\ ~ In w STOP_WORDS /\ 2 < len w)
  /\ (forall w, ~ In w STOP_WORDS -> 2 < len w ->
                Spec.count w kept = Spec.count w (get_words text))
  /\ (exists ks ranking,
         extract_keywords text limit = Ok ks
         /\ NoDup ranking
         /\ (forall w, In w ranking <-> In w kept)
         /\ StronglySorted (Spec.ranks_before kept) ranking
         /\ map word ks = firstn (Z.to_nat limit) ranking
         /\ Forall (fun k => frequency k = Spec.count (word k) kept) ks
         /\ (limit <= 0 -> ks = [])
         /\ (len ranking <= limit -> map word ks = ranking))
  /\ keep "the" = false
  /\ extract_keywords "the the the a a" 10 = Ok [].
Proof.
  intros kept. split; [|split; [|split; [|split; reflexivity]]].
  - intros w. unfold kept, Spec.kept_words. rewrite filter_In, keep_spec. tauto.
  - intros w H1 H2. apply count_filter. now apply keep_spec.
  - destruct (ranking_spec kept) as (ND & Hin & F & S).
    set (ranked := sorted_desc (items (Counter kept))) in *.
    exists (map (Spec.keyword_of (len kept)) (most_common (Counter kept) limit)),
           (map fst ranked).
    assert (W : map word (map (Spec.keyword_of (len kept)) (most_common (Counter kept) limit))
                = firstn (Z.to_nat limit) (map fst ranked)).
    { rewrite map_map. cbn [word Spec.keyword_of]. unfold most_common. fold ranked.
      now rewrite firstn_map. }
    split; [apply extract_keywords_ok|]. split; [exact ND|]. split; [exact Hin|].
    split; [exact S|]. split; [exact W|]. split; [|split].
    + apply Forall_forall. intros k Hk. apply in_map_iff in Hk as (wc & <- & Hwc).
      cbn [word frequency Spec.keyword_of]. unfold most_common in Hwc.
      apply firstn_incl in Hwc. rewrite Forall_forall in F. now apply F.
    + intros L. unfold most_common. replace (Z.to_nat limit) with 0%nat by lia.
      reflexivity.
    + intros L. rewrite W. apply firstn_all2. unfold len in L. lia.
Qed.

(** ** The sum of the relevances *)

Lemma sum_perm (l l' : list Z) : Permutation l l' -> sum l = sum l'.
Proof.
  induction 1 as [|x l l' _ IH|x y l|l l' l'' _ IH1 _ IH2];
    rewrite ?sum_cons; lia.
Qed.

Lemma sum_nonneg (l : list Z) : Forall (fun x => 0 <= x) l -> 0 <= sum l.
Proof.
  induction 1 as [|x l Hx _ IH]; [reflexivity|]. rewrite sum_cons. lia.
Qed.

Lemma sum_firstn_le (n : nat) (l : list Z) :
  Forall (fun x => 0 <= x) l -> sum (firstn n l) <= sum l.
Proof.
  intros F. rewrite <- (firstn_skipn n l) at 2. rewrite sum_app.
  assert (0 <= sum (skipn n l)); [|lia].
  apply sum_nonneg. rewrite Forall_forall in F |- *. intros x Hx. apply F.
  rewrite <- (firstn_skipn n l). apply in_or_app. now right.
Qed.

Lemma sum_values_set (c : dict Z) (k : str) (v : Z) :
  sum (values (dict_set c k v))
  = sum (values c) - match dict_get c k with Some n => n | None => 0 end + v.
Proof.
  unfold values. induction c as [|[k' n] c IH]; cbn [dict_set dict_get map snd].
  - rewrite sum_cons. change (sum []) with 0. lia.
  - destruct (str_eqb k' k); cbn [map snd]; rewrite !sum_cons; [lia|].
    rewrite IH. lia.
Qed.

(** The counts of a [Counter] add up to the number of tokens counted. *)
Lemma Counter_total (ws : list str) : sum (values (Counter ws)) = len ws.
Proof.
  induction ws as [|w ws IH] using rev_ind; [reflexivity|].
  rewrite Counter_snoc. unfold counter_incr. rewrite sum_values_set, IH.
  unfold len. rewrite length_app. cbn [length]. lia.
Qed.

(** C1, as the code has it: the frequencies of the entries one [extract]
    call returns are positive and add up to at most the number of kept tokens
    (to exactly that number when nothing is cut off by [limit]), so the
    unrounded shares frequency / total add up to at most 1; each relevance is
    that share rounded to 3 decimals, or 0 when no token is kept. *)
Theorem keyword_frequency_share (text : str) (limit : Z) :
  let kept := Spec.kept_words text in
  exists ks,
    extract_keywords text limit = Ok ks
    /\ Forall (fun k =>
                 relevance k
                 = if 0 <? len kept
                   then Float (float_round (nearest_double (frequency k) (len kept)) 3)
                   else Int 0) ks
    /\ Forall (fun k => 0 < frequency k) ks
    /\ sum (map frequency ks) <= len kept
    /\ (len (Spec.distinct kept) <= limit -> sum (map frequency ks) = len kept).
Proof.
  intros kept. destruct (ranking_spec kept) as (ND & Hin & F & S).
  set (ranked := sorted_desc (items (Counter kept))) in *.
  assert (P : Permutation ranked (Counter kept)) by apply sorted_desc_perm.
  assert (T : sum (map snd ranked) = len kept).
  { rewrite (sum_perm _ _ (Permutation_map snd P)). apply Counter_total. }
  assert (Pos : Forall (fun wc => 0 < snd wc) ranked).
  { rewrite Forall_forall in F |- *. intros wc H. rewrite (F wc H).
    apply count_in. apply Hin. now apply in_map. }
  assert (Fq : map frequency (map (Spec.keyword_of (len kept))
                                  (most_common (Counter kept) limit))
               = firstn (Z.to_nat limit) (map snd ranked)).
  { rewrite map_map. cbn [frequency Spec.keyword_of]. unfold most_common. fold ranked.
    now rewrite firstn_map. }
  exists (map (Spec.keyword_of (len kept)) (most_common (Counter kept) limit)).
  split; [apply extract_keywords_ok|]. split; [|split; [|split]].
  - apply Forall_forall. intros k Hk. apply in_map_iff in Hk as (wc & <- & _).
    reflexivity.
  - apply Forall_forall. intros k Hk. apply in_map_iff in Hk as (wc & <- & Hwc).
    cbn [frequency Spec.keyword_of]. unfold most_common in Hwc.
    apply firstn_incl in Hwc. rewrite Forall_forall in Pos. now apply Pos.
  - rewrite Fq, <- T. apply sum_firstn_le.
    rewrite Forall_forall in Pos |- *. intros x Hx.
    apply in_map_iff in Hx as (wc & <- & Hwc). apply Pos in Hwc. lia.
  - intros L. rewrite Fq, <- T. f_equal. apply firstn_all2.
    rewrite length_map, (Permutation_length P), Counter_spec, length_map.
    unfold len in L. lia.
Qed.

(** Six different kept tokens each have relevance 0.167, and six times the
    double 0.167 is more than 1, in floating point and exactly. *)
Lemma relevance_sum_above_one :
  exists ks,
    extract_keywords "aaa bbb ccc ddd eee fff" 10 = Ok ks
    /\ map relevance ks = repeat (Float 0.167) 6
    /\ (Spec.relevance_sum ks <=? 1)%float = false
    /\ (1 <? Spec.relevance_sum ks)%float = true
    /\ (exists m e, Prim2SF 0.167 = S754_finite false m e /\ 2 ^ (- e) < 6 * Zpos m).
Proof.
  eexists. split; [vm_compute; reflexivity|].
  split; [reflexivity|]. split; [reflexivity|]. split; [reflexivity|].
  eexists. eexists. split; [vm_compute; reflexivity|]. reflexivity.
Qed.

(** ** Looking a document up *)

Lemma analyze_sentiment_total (text : str) : exists r, analyze_sentiment text = Ok r.
Proof.
  unfold analyze_sentiment.
  destruct (len (get_words text) =? 0) eqn:E; [now eexists|].
  apply Z.eqb_neq in E. rewrite !truediv_ok by assumption. cbn [bind].
  destruct (_ <? _)%float; [now eexists|]. destruct (_ <? _)%float; now eexists.
Qed.

Lemma calculate_readability_total (text : str) :
  exists r, calculate_readability text = Ok r.
Proof.
  destruct (get_words text) as [|w ws] eqn:E.
  - eexists. now apply calculate_readability_unknown.
  - eexists. apply calculate_readability_ok. rewrite E. discriminate.
Qed.

Lemma analyze_document_total (store : Store) (document_id now : str) :
  exists p, analyze_document store document_id now = (Ok p, store).
Proof.
  unfold analyze_document. destruct (get_document store document_id) as [doc|];
    [|now eexists].
  destruct (analyze_sentiment_total (content doc)) as (r1 & ->).
  rewrite extract_keywords_ok.
  destruct (calculate_readability_total (content doc)) as (r3 & ->).
  rewrite get_text_stats_ok. cbn [bind]. now eexists.
Qed.

(** C6: [get] returns the stored document for an id the store holds and
    [None], without raising, for any other id; the tools then answer with the
    payload [{"error": "Document with ID <id> not found"}] and leave the store
    as it was; and nothing else in the core fails: the tools and the four
    analyses return a result on every input. *)
Theorem get_document_not_found (clock : nat -> str) (ops : list Spec.op) :
  let store := Spec.run clock ops in
  (forall doc, In doc (get_all_documents store) ->
               get_document store (id doc) = Some doc)
  /\ (forall doc_id,
         ~ In doc_id (map id (get_all_documents store)) ->
         get_document store doc_id = None
         /\ (forall now,
                analyze_document store doc_id now
                = (Ok (ErrorPayload ("Document with ID " ++ doc_id ++ " not found")),
                   store))
         /\ get_document_info store doc_id
            = (Ok (ErrorPayload ("Document with ID " ++ doc_id ++ " not found")),
               store))
  /\ (forall doc_id now, exists p, analyze_document store doc_id now = (Ok p, store))
  /\ (forall doc_id, exists p, get_document_info store doc_id = (Ok p, store))
  /\ (forall text limit,
         (exists r, analyze_sentiment text = Ok r)
         /\ (exists ks, extract_keywords text limit = Ok ks)
         /\ (exists r, calculate_readability text = Ok r)
         /\ (exists st, get_text_stats text = Ok st))
  /\ fst (get_document_info (__init__ clock) "99")
     = Ok (ErrorPayload "Document with ID 99 not found").
Proof.
  intros store. pose proof (run_sequential clock ops) as H. fold store in H.
  split; [|split; [|split; [|split; [|split]]]].
  - intros doc Hd. now apply (sequential_get store _ doc H).
  - intros doc_id N.
    assert (E : get_document store doc_id = None).
    { apply dict_get_None. destruct H as (_ & Hk & _).
      rewrite Hk, <- (sequential_ids store _ (run_sequential clock ops)). exact N. }
    split; [exact E|]. unfold analyze_document, get_document_info. rewrite E.
    now split.
  - intros doc_id now. apply analyze_document_total.
  - intros doc_id. unfold get_document_info.
    destruct (get_document store doc_id); now eexists.
  - intros text limit. split; [apply analyze_sentiment_total|].
    split; [eexists; apply extract_keywords_ok|].
    split; [apply calculate_readability_total|]. eexists. apply get_text_stats_ok.
  - unfold get_document_info.
    assert (E : get_document (__init__ clock) "99" = None).
    { apply dict_get_None. destruct (init_sequential clock) as (_ & -> & _).
      vm_compute. intuition discriminate. }
    now rewrite E.
Qed.

(** * Further properties of the store and of the tools *)

Lemma records_app (n : nat) (a b : list (DocData * str)) :
  Spec.records n (a ++ b) = Spec.records n a ++ Spec.records (n + length a) b.
Proof.
  revert n; induction a as [|x a IH]; intros n; cbn [app Spec.records length].
  - now rewrite Nat.add_0_r.
  - rewrite IH. now replace (S n + length a)%nat with (n + S (length a))%nat by lia.
Qed.

Lemma records_In (n : nat) (xs : list (DocData * str)) (doc : Document) :
  In doc (Spec.records n xs) ->
  exists i x, nth_error xs i = Some x /\ doc = Spec.record (n + i) x.
Proof.
  revert n; induction xs as [|x xs IH]; intros n; cbn [Spec.records In]; [tauto|].
  intros [<- | H].
  - exists 0%nat, x. split; [reflexivity | now rewrite Nat.add_0_r].
  - apply IH in H as (i & y & Hy & ->). exists (S i), y. split; [assumption|].
    f_equal. lia.
Qed.

Lemma holds_add (self : Store) (xs : list (DocData * str)) (d : DocData) (now : str) :
  Spec.holds self xs -> Spec.holds (snd (add_document self d now)) (xs ++ [(d, now)]).
Proof.
  intros (S & L). destruct (add_document_sequential self _ d now S) as (_ & S' & L').
  split.
  - rewrite length_app. cbn [length]. now rewrite Nat.add_1_r.
  - rewrite L', L, records_app. cbn [Spec.records]. do 2 f_equal.
    unfold Spec.record. cbn [fst snd]. f_equal. f_equal. lia.
Qed.

Lemma holds_add_all (ds : list (nat * DocData)) (clock : nat -> str)
      (self : Store) (xs : list (DocData * str)) :
  Spec.holds self xs ->
  Spec.holds (fold_left (fun self x => snd (add_document self (snd x) (clock (fst x)))) ds self)
        (xs ++ map (fun x => (snd x, clock (fst x))) ds).
Proof.
  revert self xs; induction ds as [|x ds IH]; intros self xs H; cbn [fold_left map].
  - now rewrite app_nil_r.
  - replace (xs ++ (snd x, clock (fst x)) :: map (fun x => (snd x, clock (fst x))) ds)
      with ((xs ++ [(snd x, clock (fst x))]) ++ map (fun x => (snd x, clock (fst x))) ds)
      by now rewrite <- app_assoc.
    apply IH. now apply holds_add.
Qed.

Lemma holds_init (clock : nat -> str) : Spec.holds (__init__ clock) (Spec.seeded clock).
Proof.
  unfold __init__, _initialize_sample_documents, Spec.seeded.
  apply (holds_add_all _ clock _ []). split; [|reflexivity].
  repeat split. constructor.
Qed.

Lemma added_app (a b : list Spec.op) : Spec.added (a ++ b) = Spec.added a ++ Spec.added b.
Proof. unfold Spec.added. apply flat_map_app. Qed.

Lemma added_length (ops : list Spec.op) : length (Spec.added ops) = Spec.adds ops.
Proof.
  unfold Spec.added, Spec.adds. induction ops as [|o ops IH]; [reflexivity|].
  cbn [flat_map filter]. rewrite length_app, IH. now destruct o.
Qed.

Lemma holds_run (clock : nat -> str) (ops : list Spec.op) :
  Spec.holds (Spec.run clock ops) (Spec.seeded clock ++ Spec.added ops).
Proof.
  unfold Spec.run. induction ops as [|o ops IH] using rev_ind.
  - cbn [fold_left Spec.added flat_map]. rewrite app_nil_r. apply holds_init.
  - rewrite fold_left_app, added_app. cbn [fold_left].
    destruct o; cbn [Spec.step Spec.added flat_map app];
      rewrite ?search_keeps_store, ?app_nil_r; try assumption.
    rewrite app_assoc. now apply holds_add.
Qed.

Lemma seeded_length (clock : nat -> str) : length (Spec.seeded clock) = 16%nat.
Proof. reflexivity. Qed.

(** X1: the store is what was added to it: after any operations, [list()]
    is the samples followed by the documents of the [add] calls, in the order
    of the calls, the n-th under the id "n", each with the fields and the
    time of its call; the [list_documents] tool shows them in that order. *)
Theorem store_contents (clock : nat -> str) (ops : list Spec.op) :
  let store := Spec.run clock ops in
  get_all_documents store = Spec.records 1 (Spec.seeded clock ++ Spec.added ops)
  /\ Tools.list_documents store
     = map Tools.listed_of (Spec.records 1 (Spec.seeded clock ++ Spec.added ops))
  /\ length (Spec.seeded clock) = 16%nat
  /\ map fst (Spec.seeded clock) = sample_docs.
Proof.
  intros store. destruct (holds_run clock ops) as (_ & L). fold store in L.
  split; [exact L|]. split; [|split].
  - unfold Tools.list_documents. now rewrite L.
  - reflexivity.
  - reflexivity.
Qed.

(** X2: the store only grows: operations run later add documents at the end
    of [list()] and change nothing that is there, so a document once stored
    is returned by [get] under its id, as it was, after any further
    operations. *)
Theorem store_append_only (clock : nat -> str) (ops later : list Spec.op) :
  get_all_documents (Spec.run clock (ops ++ later))
  = get_all_documents (Spec.run clock ops)
    ++ Spec.records (17 + Spec.adds ops) (Spec.added later)
  /\ (forall doc, In doc (get_all_documents (Spec.run clock ops)) ->
                  get_document (Spec.run clock (ops ++ later)) (id doc) = Some doc).
Proof.
  destruct (holds_run clock ops) as (_ & L).
  destruct (holds_run clock (ops ++ later)) as (S' & L').
  assert (E : get_all_documents (Spec.run clock (ops ++ later))
              = get_all_documents (Spec.run clock ops)
                ++ Spec.records (17 + Spec.adds ops) (Spec.added later)).
  { rewrite L', L, added_app, app_assoc, records_app. do 2 f_equal.
    rewrite length_app, seeded_length, added_length. lia. }
  split; [exact E|]. intros doc H.
  apply (sequential_get _ _ doc S'). rewrite E. apply in_or_app. now left.
Qed.

Lemma tool_add_document_eq (store : Store) (title content : str)
      (author category : option str) (tags : option (list str)) (now : str) :
  let doc_data := {| dd_title := title; dd_content := content;
                     dd_author := author; dd_category := category;
                     dd_tags := Some (match tags with None => [] | Some ts => ts end) |} in
  Tools.add_document store title content author category tags now
  = ({| Tools.ad_document_id := fst (add_document store doc_data now);
        Tools.ad_title := title;
        Tools.ad_status := "added";
        Tools.ad_message := "Document '" ++ title ++ "' added successfully with ID "
                            ++ fst (add_document store doc_data now) |},
     snd (add_document store doc_data now)).
Proof. reflexivity. Qed.

(** X3: the [add_document] tool stores what it is given: it answers with
    the next id and the status "added", the store it leaves is the one the
    [add] operation reaches, the new document comes last in [list()], and
    looking the answered id up returns the document with the given title,
    content, author and category, the given tags or none, and the time of
    the call. *)
Theorem add_then_get (clock : nat -> str) (ops : list Spec.op)
        (title content : str) (author category : option str)
        (tags : option (list str)) (now : str) :
  let store := Spec.run clock ops in
  let answer := Tools.add_document store title content author category tags now in
  let doc := {| id := str_of_int (Z.of_nat (17 + Spec.adds ops));
                DocumentStore.title := title;
                DocumentStore.content := content;
                DocumentStore.author := author;
                DocumentStore.category := category;
                DocumentStore.tags := match tags with Some ts => ts | None => [] end;
                created_at := now |} in
  Tools.ad_document_id (fst answer) = id doc
  /\ Tools.ad_title (fst answer) = title
  /\ Tools.ad_status (fst answer) = "added"
  /\ Tools.ad_message (fst answer)
     = "Document '" ++ title ++ "' added successfully with ID " ++ id doc
  /\ get_all_documents (snd answer) = get_all_documents store ++ [doc]
  /\ get_document (snd answer) (id doc) = Some doc
  /\ get_document_info (snd answer) (id doc) = (Ok (DocumentPayload doc), snd answer)
  /\ (forall old, In old (get_all_documents store) ->
                  get_document (snd answer) (id old) = Some old).
Proof.
  intros store answer doc.
  pose proof (run_sequential clock ops) as S. fold store in S.
  set (doc_data := {| dd_title := title; dd_content := content;
                      dd_author := author; dd_category := category;
                      dd_tags := Some (match tags with None => [] | Some ts => ts end) |}).
  destruct (add_document_sequential store _ doc_data now S) as (I & S' & L).
  assert (Ed : id doc = str_of_int (Z.of_nat (16 + Spec.adds ops) + 1)).
  { cbn [id doc]. f_equal. lia. }
  assert (A : answer
              = ({| Tools.ad_document_id := fst (add_document store doc_data now);
                    Tools.ad_title := title;
                    Tools.ad_status := "added";
                    Tools.ad_message :=
                      "Document '" ++ title ++ "' added successfully with ID "
                      ++ fst (add_document store doc_data now) |},
                 snd (add_document store doc_data now)))
    by apply tool_add_document_eq.
  rewrite A. cbn [fst snd Tools.ad_document_id Tools.ad_title Tools.ad_status
                  Tools.ad_message]. rewrite I, L.
  assert (D : {| id := str_of_int (Z.of_nat (16 + Spec.adds ops) + 1);
                 DocumentStore.title := dd_title doc_data;
                 DocumentStore.content := dd_content doc_data;
                 DocumentStore.author := dd_author doc_data;
                 DocumentStore.category := dd_category doc_data;
                 DocumentStore.tags :=
                   match dd_tags doc_data with Some ts => ts | None => [] end;
                 created_at := now |} = doc).
  { unfold doc. cbn [doc_data dd_title dd_content dd_author dd_category dd_tags].
    f_equal; try (f_equal; lia); now destruct tags. }
  rewrite D, <- Ed.
  assert (G : forall d, In d (get_all_documents store ++ [doc]) ->
                        get_document (snd (add_document store doc_data now)) (id d) = Some d).
  { intros d. rewrite <- D, <- L. apply (sequential_get _ _ d S'). }
  assert (Gd : get_document (snd (add_document store doc_data now)) (id doc) = Some doc).
  { apply G. apply in_or_app. right. now left. }
  split; [reflexivity|]. split; [reflexivity|]. split; [reflexivity|].
  split; [reflexivity|]. split; [reflexivity|]. split; [exact Gd|]. split.
  - unfold get_document_info. now rewrite Gd.
  - intros old H. apply G. apply in_or_app. now left.
Qed.

Lemma search_documents_filter (self : Store) (query : str) :
  search_documents self query
  = (filter (matches (lower query)) (get_all_documents self), self).
Proof. unfold search_documents. now rewrite search_loop. Qed.

Lemma Substring_trans (a b c : str) :
  Spec.Substring a b -> Spec.Substring b c -> Spec.Substring a c.
Proof.
  intros (l & r & ->) (l' & r' & ->). exists (l' ++ l), (r ++ r').
  now rewrite <- !app_assoc.
Qed.

Lemma Substring_lower (a b : str) :
  Spec.Substring a b -> Spec.Substring (lower a) (lower b).
Proof.
  intros (l & r & ->). exists (lower l), (lower r). unfold lower.
  now rewrite !map_app.
Qed.

(** X4: a longer query finds less: when the query [q] occurs inside the
    query [q'], compared without case, every document [search(q')] returns is
    among those [search(q)] returns; searching [q'] is searching [q] and then
    keeping the documents that match [q']. *)
Theorem search_narrows (self : Store) (q q' : str) :
  Spec.Substring (lower q) (lower q') ->
  fst (search_documents self q')
  = filter (matches (lower q')) (fst (search_documents self q))
  /\ incl (fst (search_documents self q')) (fst (search_documents self q)).
Proof.
  intros H. rewrite !search_documents_filter. cbn [fst].
  assert (M : forall doc, matches (lower q') doc = true -> matches (lower q) doc = true).
  { intros doc. rewrite !matches_spec.
    intros [T | [C | (tag & Ht & T)]].
    - left. exact (Substring_trans _ _ _ H T).
    - right. left. exact (Substring_trans _ _ _ H C).
    - right. right. exists tag. split; [assumption|]. exact (Substring_trans _ _ _ H T). }
  split.
  - induction (get_all_documents self) as [|d l IH]; [reflexivity|].
    cbn [filter]. destruct (matches (lower q') d) eqn:E.
    + rewrite (M d E). cbn [filter]. rewrite E. now f_equal.
    + destruct (matches (lower q) d); [cbn [filter]; now rewrite E | assumption].
  - intros doc Hd. apply filter_In in Hd as (Hd & E). apply filter_In.
    split; [assumption | now apply M].
Qed.

Lemma search_narrows_witness :
  Spec.Substring (lower "ENERGY") (lower "renewable energy")
  /\ incl (fst (search_documents (__init__ (fun _ => "t")) "renewable energy"))
          (fst (search_documents (__init__ (fun _ => "t")) "ENERGY")).
Proof.
  assert (H : Spec.Substring (lower "ENERGY") (lower "renewable energy")).
  { exists (String.list_ascii_of_string "renewable "), []. reflexivity. }
  split; [exact H|].
  exact (proj2 (search_narrows (__init__ (fun _ => "t")) "ENERGY" "renewable energy" H)).
Defined.

(** X5: what [search] returns can be looked up: in any state the store
    reaches, every document of a search result is stored, [get] on its id
    returns that very document, and no id comes twice in a result. *)
Theorem search_then_get (clock : nat -> str) (ops : list Spec.op) (query : str) :
  let store := Spec.run clock ops in
  let results := fst (search_documents store query) in
  Forall (fun doc => get_document store (id doc) = Some doc) results
  /\ incl results (get_all_documents store)
  /\ NoDup (map id results)
  /\ (length results <= length (get_all_documents store))%nat.
Proof.
  intros store results. pose proof (run_sequential clock ops) as S. fold store in S.
  unfold results. rewrite search_documents_filter. cbn [fst].
  split; [|split; [|split]].
  - apply Forall_forall. intros doc H. apply filter_In in H as (H & _).
    now apply (sequential_get store _ doc S).
  - intros doc H. now apply filter_In in H.
  - pose proof (sequential_ids store _ S) as E.
    assert (ND : NoDup (map id (get_all_documents store)))
      by (rewrite E; apply decimals_NoDup).
    revert ND. generalize (get_all_documents store) as l.
    induction l as [|d l IH]; intros ND; [constructor|].
    inversion ND as [|? ? N ND']; subst. cbn [filter].
    destruct (matches (lower query) d); [|now apply IH].
    cbn [map]. constructor; [|now apply IH].
    intros C. apply N. apply in_map_iff in C as (x & Ex & Hx).
    apply filter_In in Hx as (Hx & _). apply in_map_iff. now exists x.
  - apply filter_length_le.
Qed.

(** X6: a new document is found right away: after an [add], [search]
    returns what it returned before, followed by the new document when the
    query occurs in its title, content or tags, compared without case. *)
Theorem search_after_add (clock : nat -> str) (ops : list Spec.op)
        (d : DocData) (now query : str) :
  let store := Spec.run clock ops in
  let doc := Spec.record (17 + Spec.adds ops) (d, now) in
  fst (search_documents (snd (add_document store d now)) query)
  = fst (search_documents store query)
    ++ (if matches (lower query) doc then [doc] else []).
Proof.
  intros store doc. rewrite !search_documents_filter. cbn [fst].
  pose proof (run_sequential clock ops) as S. fold store in S.
  destruct (add_document_sequential store _ d now S) as (_ & _ & L).
  rewrite L, filter_app. f_equal. cbn [filter].
  replace (Z.of_nat (16 + Spec.adds ops) + 1) with (Z.of_nat (17 + Spec.adds ops)) by lia.
  reflexivity.
Qed.

(** X7: the snippet of a search hit is the content when the content has at
    most 200 characters, and otherwise its first 200 characters followed by
    "...", 203 characters in all; the search tool returns one hit per document
    of the store's search, in the same order and with its id, and leaves the
    store as it was. *)
Theorem search_tool_snippets (self : Store) (query : str) :
  let hits := fst (Tools.search_documents self query) in
  let results := fst (search_documents self query) in
  snd (Tools.search_documents self query) = self
  /\ map Tools.h_document_id hits = map id results
  /\ map Tools.h_title hits = map title results
  /\ Forall2 (fun doc hit =>
                len (Tools.h_snippet hit) <= 203
                /\ firstn 200 (Tools.h_snippet hit) = firstn 200 (content doc)
                /\ (len (content doc) <= 200 -> Tools.h_snippet hit = content doc)
                /\ (200 < len (content doc) ->
                    Tools.h_snippet hit = firstn 200 (content doc) ++ "..."
                    /\ len (Tools.h_snippet hit) = 203))
             results hits.
Proof.
  intros hits results.
  assert (E : Tools.search_documents self query = (map Tools.hit_of results, self))
    by reflexivity.
  unfold hits. rewrite E. cbn [fst snd]. split; [reflexivity|].
  split; [now rewrite map_map|]. split; [now rewrite map_map|].
  clear E hits. induction results as [|doc l IH]; [constructor|]. cbn [map]. constructor; [|exact IH].
  unfold Tools.hit_of, Tools.slice_to. cbn [Tools.h_snippet].
  destruct (200 <? len (content doc)) eqn:C.
  - apply Z.ltb_lt in C. unfold len in *.
    assert (F : length (firstn 200 (content doc)) = 200%nat)
      by (apply firstn_length_le; lia).
    split; [rewrite length_app, F; cbn; lia|]. split.
    + rewrite firstn_app, F, Nat.sub_diag, firstn_0, app_nil_r. apply firstn_firstn.
    + split; [lia|]. intros _. split; [reflexivity|]. rewrite length_app, F. reflexivity.
  - apply Z.ltb_ge in C. split; [lia|]. split; [reflexivity|].
    split; [reflexivity | lia].
Qed.

(** * Further properties of the analyzer *)

Lemma lower_char_idem (c : ascii) : lower_char (lower_char c) = lower_char c.
Proof. destruct c as [[] [] [] [] [] [] [] []]; reflexivity. Qed.

Lemma lower_idem (s : str) : lower (lower s) = lower s.
Proof.
  unfold lower. rewrite map_map. apply map_ext. intros c. apply lower_char_idem.
Qed.

Lemma filter_idem {A : Type} (f : A -> bool) (l : list A) :
  filter f (filter f l) = filter f l.
Proof.
  apply forallb_filter_id. apply forallb_forall. intros x H.
  now apply filter_In in H.
Qed.

Lemma clean_text_chars (text : str) (c : ascii) :
  In c (clean_text text) ->
  (isword c || isspace c) = true /\ lower_char c = c
  /\ exists c0, In c0 text /\ c = lower_char c0.
Proof.
  unfold clean_text, re_sub_delete_not, lower. intros H.
  apply filter_In in H as (H & K). apply in_map_iff in H as (c0 & <- & H0).
  split; [exact K|]. split; [apply lower_char_idem|]. now exists c0.
Qed.

Lemma clean_text_idem (text : str) : clean_text (clean_text text) = clean_text text.
Proof.
  unfold clean_text at 1. unfold re_sub_delete_not.
  assert (E : lower (clean_text text) = clean_text text).
  { unfold lower. rewrite <- (map_id (clean_text text)) at 2.
    apply map_ext_in. intros c H. now apply clean_text_chars in H. }
  rewrite E. unfold clean_text, re_sub_delete_not. apply filter_idem.
Qed.

Lemma clean_text_lower (text : str) : clean_text (lower text) = clean_text text.
Proof. unfold clean_text. now rewrite lower_idem. Qed.


(** X9: normalizing twice changes nothing, and the words do not depend on
    case or on punctuation: the cleaned text cleans to itself, and the text,
    its lower-case form and its cleaned form have the same words, hence the
    same sentiment and the same keywords. *)
Theorem normalization_idempotent (text : str) (limit : Z) :
  clean_text (clean_text text) = clean_text text
  /\ get_words (clean_text text) = get_words text
  /\ get_words (lower text) = get_words text
  /\ analyze_sentiment (lower text) = analyze_sentiment text
  /\ analyze_sentiment (clean_text text) = analyze_sentiment text
  /\ extract_keywords (lower text) limit = extract_keywords text limit
  /\ extract_keywords (clean_text text) limit = extract_keywords text limit.
Proof.
  assert (W1 : get_words (clean_text text) = get_words text)
    by (unfold get_words; now rewrite clean_text_idem).
  assert (W2 : get_words (lower text) = get_words text)
    by (unfold get_words; now rewrite clean_text_lower).
  split; [apply clean_text_idem|]. split; [exact W1|]. split; [exact W2|].
  unfold analyze_sentiment, extract_keywords. rewrite W1, W2. repeat split.
Qed.

Lemma lstrip_starts_clean (s : str) : Spec.starts_clean (lstrip s) = true.
Proof.
  induction s as [|c s IH]; [reflexivity|]. cbn [lstrip].
  destruct (isspace c) eqn:E; [assumption|]. cbn [Spec.starts_clean]. now rewrite E.
Qed.

Lemma lstrip_clean (s : str) : Spec.starts_clean s = true -> lstrip s = s.
Proof.
  destruct s as [|c s]; [reflexivity|]. cbn [Spec.starts_clean lstrip].
  now destruct (isspace c).
Qed.

Lemma lstrip_suffix (s : str) : exists sp, s = sp ++ lstrip s.
Proof.
  induction s as [|c s (sp & IH)]; [now exists []|]. cbn [lstrip].
  destruct (isspace c); [|now exists []]. exists (c :: sp). cbn [app]. now f_equal.
Qed.

Lemma lstrip_incl (s : str) (c : ascii) : In c (lstrip s) -> In c s.
Proof.
  destruct (lstrip_suffix s) as (sp & E). intros H. rewrite E.
  apply in_or_app. now right.
Qed.

Lemma strip_incl (s : str) (c : ascii) : In c (strip s) -> In c s.
Proof.
  unfold strip. intros H. apply in_rev in H. apply lstrip_incl in H.
  apply in_rev in H. now apply lstrip_incl in H.
Qed.

Lemma strip_ends_clean (s : str) :
  Spec.starts_clean (strip s) = true /\ Spec.starts_clean (rev (strip s)) = true.
Proof.
  unfold strip. rewrite rev_involutive. split; [|apply lstrip_starts_clean].
  pose proof (lstrip_starts_clean s) as A.
  destruct (lstrip_suffix (rev (lstrip s))) as (sp & E).
  apply (f_equal (@rev ascii)) in E. rewrite rev_involutive, rev_app_distr in E.
  destruct (rev (lstrip (rev (lstrip s)))) as [|c r]; [reflexivity|].
  rewrite E in A. exact A.
Qed.

Lemma strip_idem (s : str) : strip (strip s) = strip s.
Proof.
  destruct (strip_ends_clean s) as (A & B). unfold strip at 1.
  rewrite (lstrip_clean _ A), (lstrip_clean _ B). apply rev_involutive.
Qed.

(** X10: every sentence of [get_sentences] is trimmed and free of
    terminators: it is not empty, it begins and ends with a character that is
    not whitespace (trimming it again changes nothing), it holds none of
    ".", "!" and "?", and all its characters are characters of the text. *)
Theorem get_sentences_trimmed (text : str) :
  Forall (fun s =>
            s <> []
            /\ strip s = s
            /\ Spec.starts_clean s = true
            /\ Spec.starts_clean (rev s) = true
            /\ forallb (fun c => negb (is_terminator c)) s = true
            /\ incl s text)
         (get_sentences text).
Proof.
  unfold get_sentences. apply Forall_forall. intros s H.
  apply in_map_iff in H as (p & <- & H). apply filter_In in H as (Hp & T).
  assert (C : forall c, In c (strip p) -> In c text /\ is_terminator c = false).
  { intros c Hc. apply strip_incl in Hc.
    assert (Hcc : In c (concat (re_split_runs is_terminator text)))
      by (apply in_concat; now exists p).
    rewrite re_split_runs_concat in Hcc. apply filter_In in Hcc as (Hc' & N).
    split; [assumption | now apply negb_true_iff]. }
  split; [now apply truthy_iff|]. split; [apply strip_idem|].
  split; [apply strip_ends_clean|]. split; [apply strip_ends_clean|]. split.
  - apply forallb_forall. intros c Hc. apply negb_true_iff. now apply C.
  - intros c Hc. now apply C.
Qed.

Lemma filter_none {A : Type} (f : A -> bool) (l : list A) :
  (forall x, In x l -> f x = false) -> filter f l = [].
Proof.
  induction l as [|x l IH]; intros H; [reflexivity|]. cbn [filter].
  rewrite (H x) by now left. apply IH. intros y Hy. apply H. now right.
Qed.



Lemma no_word_char_no_words (text : str) :
  forallb (fun c => negb (isword (lower_char c))) text = true -> get_words text = [].
Proof.
  intros H. destruct (get_words text) as [|w ws] eqn:E; [reflexivity|].
  assert (N : get_words text <> []) by (rewrite E; discriminate).
  apply get_words_nonempty in N as (c & Hc & Hw).
  rewrite forallb_forall in H. specialize (H c Hc). now rewrite Hw in H.
Qed.

(** X12: a text without a letter, a digit or an underscore (empty, blank
    or punctuation only) has no words, and every analysis answers with its
    empty result instead of failing: sentiment "neutral" with confidence 0.0
    and zero scores, no keywords whatever the limit, the "unknown"
    readability record, and statistics with a word count of 0. *)
Theorem analyses_without_words (text : str) (limit : Z) :
  forallb (fun c => negb (isword (lower_char c))) text = true ->
  get_words text = []
  /\ analyze_sentiment text
     = Ok {| sentiment := "neutral"; confidence := Float 0;
             scores := {| positive := Int 0; negative := Int 0; neutral := Int 0 |} |}
  /\ extract_keywords text limit = Ok []
  /\ calculate_readability text = Ok Spec.unknown
  /\ exists st, get_text_stats text = Ok st
                /\ word_count st = 0
                /\ character_count st = len text.
Proof.
  intros H. apply no_word_char_no_words in H.
  split; [exact H|]. split; [|split; [|split]].
  - unfold analyze_sentiment. now rewrite H.
  - rewrite extract_keywords_ok. unfold Spec.kept_words. rewrite H. cbn [filter].
    unfold most_common. change (sorted_desc (items (Counter []))) with (@nil (str * Z)).
    now rewrite firstn_nil.
  - now apply calculate_readability_unknown.
  - eexists. split; [apply get_text_stats_ok|]. cbn [word_count character_count].
    now rewrite H.
Qed.

Lemma analyses_without_words_witness :
  forallb (fun c => negb (isword (lower_char c))) Spec.punctuation_only = true
  /\ extract_keywords Spec.punctuation_only 10 = Ok []
  /\ calculate_readability Spec.punctuation_only = Ok Spec.unknown.
Proof.
  assert (H : forallb (fun c => negb (isword (lower_char c))) Spec.punctuation_only = true)
    by reflexivity.
  split; [exact H|].
  destruct (analyses_without_words Spec.punctuation_only 10 H) as (_ & _ & K & R & _).
  now split.
Defined.

Lemma disjoint_filters {A : Type} (f g : A -> bool) (l : list A) :
  (forall x, In x l -> f x && g x = false) ->
  len (filter f l) + len (filter g l) <= len l.
Proof.
  unfold len. induction l as [|x l IH]; intros H; [reflexivity|].
  cbn [filter]. assert (Hx := H x (or_introl eq_refl)).
  assert (IH' : Z.of_nat (length (filter f l)) + Z.of_nat (length (filter g l))
                <= Z.of_nat (length l)) by (apply IH; intros y Hy; apply H; now right).
  destruct (f x), (g x); try discriminate; cbn [length]; lia.
Qed.

(** X13: no word is both positive and negative: the two lexicons share no
    word, so on every text the positive and the negative count together are
    at most the number of words. *)
Theorem sentiment_counts_disjoint (text : str) :
  (forall w, ~ (In w POSITIVE_WORDS /\ In w NEGATIVE_WORDS))
  /\ 0 <= Spec.positive_count text
  /\ 0 <= Spec.negative_count text
  /\ Spec.positive_count text + Spec.negative_count text <= len (get_words text).
Proof.
  assert (D : forallb (fun w => negb (mem w NEGATIVE_WORDS)) POSITIVE_WORDS = true)
    by (vm_compute; reflexivity).
  rewrite forallb_forall in D.
  assert (X : forall w, mem w POSITIVE_WORDS && mem w NEGATIVE_WORDS = false).
  { intros w. destruct (mem w POSITIVE_WORDS) eqn:P; [|reflexivity].
    apply mem_In in P. apply D in P. now apply negb_true_iff in P. }
  split; [|split; [|split]].
  - intros w (P & N). apply mem_In in P, N. specialize (X w). now rewrite P, N in X.
  - unfold Spec.positive_count, len. lia.
  - unfold Spec.negative_count, len. lia.
  - apply disjoint_filters. intros w _. apply X.
Qed.

Lemma NoDup_firstn {A : Type} (n : nat) (l : list A) : NoDup l -> NoDup (firstn n l).
Proof.
  intros H. rewrite <- (firstn_skipn n l) in H. now apply NoDup_app_remove_r in H.
Qed.

Lemma sorted_firstn {A : Type} (R : A -> A -> Prop) (n : nat) (l : list A) :
  StronglySorted R l -> StronglySorted R (firstn n l).
Proof.
  revert n; induction l as [|x l IH]; intros [|n] S; cbn [firstn]; try constructor.
  - inversion S; subst. now apply IH.
  - inversion S as [|? ? S' F]; subst.
    rewrite Forall_forall in F |- *. intros y Hy. apply F.
    now apply firstn_incl in Hy.
Qed.

Lemma sorted_trivially {A : Type} (l : list A) : StronglySorted (fun _ _ => True) l.
Proof.
  induction l as [|x l IH]; constructor; [assumption|].
  apply Forall_forall. trivial.
Qed.

(** X14: the shape of the answer of [extract]: at most [limit] entries and
    at most one per different kept word, no word twice, every word a word of
    the text that is not a stop word and is longer than 2, every frequency
    between 1 and the number of kept tokens, and the frequencies never rise
    along the list. *)
Theorem extract_keywords_shape (text : str) (limit : Z) :
  let kept := Spec.kept_words text in
  exists ks,
    extract_keywords text limit = Ok ks
    /\ len ks <= Z.max 0 limit
    /\ len ks <= len (Spec.distinct kept)
    /\ NoDup (map word ks)
    /\ Forall (fun k =>
                 In (word k) (get_words text)
                 /\ ~ In (word k) STOP_WORDS
                 /\ 2 < len (word k)
                 /\ 1 <= frequency k <= len kept) ks
    /\ StronglySorted (fun a b => frequency b <= frequency a) ks.
Proof.
  intros kept. destruct (ranking_spec kept) as (ND & Hin & F & _).
  set (ranked := sorted_desc (items (Counter kept))) in *.
  assert (P : Permutation ranked (Counter kept)) by apply sorted_desc_perm.
  exists (map (Spec.keyword_of (len kept)) (most_common (Counter kept) limit)).
  split; [apply extract_keywords_ok|]. unfold most_common. fold ranked.
  split; [|split; [|split; [|split]]].
  - unfold len. rewrite length_map. pose proof (firstn_le_length (Z.to_nat limit) ranked).
    lia.
  - unfold len. rewrite length_map, length_firstn.
    rewrite (Permutation_length P), Counter_spec, length_map. lia.
  - rewrite map_map. cbn [word Spec.keyword_of]. rewrite <- firstn_map.
    now apply NoDup_firstn.
  - apply Forall_forall. intros k Hk. apply in_map_iff in Hk as (wc & <- & Hwc).
    apply firstn_incl in Hwc. cbn [word frequency Spec.keyword_of].
    assert (K : In (fst wc) kept) by (apply Hin; now apply in_map).
    rewrite Forall_forall in F. rewrite (F wc Hwc).
    unfold kept, Spec.kept_words in K. apply filter_In in K as (K1 & K2).
    apply keep_spec in K2 as (K2 & K3).
    split; [assumption|]. split; [assumption|]. split; [assumption|]. split.
    + assert (0 < Spec.count (fst wc) kept); [|lia]. apply count_in.
      unfold kept, Spec.kept_words. apply filter_In. split; [assumption|].
      now apply keep_spec.
    + unfold Spec.count, len. pose proof (filter_length_le (str_eqb (fst wc)) kept). lia.
  - apply (StronglySorted_map_in (Spec.keyword_of (len kept))
             (Spec.by_count_then (fun _ _ => True))).
    + intros a b _ _ [Q | (Q & _)]; cbn [frequency Spec.keyword_of]; lia.
    + apply sorted_firstn. apply sorted_desc_sorted. apply sorted_trivially.
Qed.

(** X15: a smaller limit gives a prefix: for [l1 <= l2], the answer of
    [extract] for the limit [l1] is the first [l1] entries of the answer for
    the limit [l2], relevances included. *)
Theorem extract_keywords_prefix (text : str) (l1 l2 : Z) :
  l1 <= l2 ->
  exists ks1 ks2,
    extract_keywords text l1 = Ok ks1
    /\ extract_keywords text l2 = Ok ks2
    /\ ks1 = firstn (Z.to_nat l1) ks2.
Proof.
  intros H. eexists. eexists. split; [apply extract_keywords_ok|].
  split; [apply extract_keywords_ok|].
  unfold most_common. rewrite <- firstn_map, <- firstn_map, firstn_firstn.
  f_equal. lia.
Qed.

Lemma extract_keywords_prefix_witness :
  2 <= 10
  /\ exists ks1 ks2,
       extract_keywords "bbb aaa bbb ccc ccc ddd" 2 = Ok ks1
       /\ extract_keywords "bbb aaa bbb ccc ccc ddd" 10 = Ok ks2
       /\ ks1 = firstn 2 ks2.
Proof.
  assert (H : 2 <= 10) by lia.
  split; [exact H|].
  exact (extract_keywords_prefix "bbb aaa bbb ccc ccc ddd" 2 10 H).
Defined.

Lemma length_concat_ge {A : Type} (ls : list (list A)) :
  Forall (fun l => l <> []) ls -> (length ls <= length (concat ls))%nat.
Proof.
  induction 1 as [|l ls Hl _ IH]; [reflexivity|].
  cbn [concat length]. rewrite length_app. destruct l; [congruence|]. cbn [length]. lia.
Qed.

Lemma marked_pieces_le {A : Type} (q : A -> bool) (ps : list (list A)) :
  (length (filter (existsb q) ps) <= length (filter q (concat ps)))%nat.
Proof.
  induction ps as [|p ps IH]; [reflexivity|].
  cbn [filter concat]. rewrite filter_app, length_app.
  destruct (existsb q p) eqn:E; [|lia]. cbn [length].
  apply existsb_exists in E as (x & Hx & Qx).
  assert (In x (filter q p)) by now apply filter_In.
  destruct (filter q p); [contradiction|]. cbn [length]. lia.
Qed.

Lemma filter_length_mono {A : Type} (f g : A -> bool) (l : list A) :
  (forall x, f x = true -> g x = true) ->
  (length (filter f l) <= length (filter g l))%nat.
Proof.
  intros H. induction l as [|x l IH]; [reflexivity|]. cbn [filter].
  destruct (f x) eqn:E; [rewrite (H x E); cbn [length]; lia|].
  destruct (g x); cbn [length]; lia.
Qed.

Lemma split2_concat_le (q : ascii -> bool) (c1 c2 : ascii) (s : str) :
  (length (filter q (concat (split2 c1 c2 s))) <= length (filter q s))%nat.
Proof.
  induction s as [| c | c c' s IH IH'] using str_ind2; [reflexivity | reflexivity |].
  rewrite split2_cons2. destruct (chr_eqb c c1 && chr_eqb c' c2).
  - cbn [concat app filter]. destruct (q c), (q c'); cbn [length]; lia.
  - rewrite cons_head_concat. cbn [filter] in *. destruct (q c); cbn [length]; lia.
Qed.

Lemma split2_covers (c1 c2 : ascii) (s : str) (c : ascii) :
  In c s -> In c (concat (split2 c1 c2 s)) \/ c = c1 \/ c = c2.
Proof.
  induction s as [| x | x x' s IH IH'] using str_ind2.
  - contradiction.
  - intros [<- | []]. left. now left.
  - rewrite split2_cons2. destruct (chr_eqb x c1 && chr_eqb x' c2) eqn:E.
    + apply andb_true_iff in E as (E1 & E2). apply chr_eqb_eq in E1, E2. subst.
      cbn [concat app]. intros [<- | [<- | H]]; [tauto | tauto | now apply IH].
    + rewrite cons_head_concat. intros [<- | H]; [left; now left|].
      destruct (IH' H) as [K | K]; [left; now right | now right].
Qed.

Lemma split2_within (c1 c2 : ascii) (s : str) (c : ascii) :
  In c (concat (split2 c1 c2 s)) -> In c s.
Proof.
  induction s as [| x | x x' s IH IH'] using str_ind2.
  - intros [].
  - intros H. exact H.
  - rewrite split2_cons2. destruct (chr_eqb x c1 && chr_eqb x' c2).
    + cbn [concat app]. intros H. right. right. now apply IH.
    + rewrite cons_head_concat. intros [<- | H]; [now left | right; now apply IH'].
Qed.

Lemma not_space_not_blank (c : ascii) :
  negb (isspace c) = true -> negb (chr_eqb c " ") = true.
Proof. destruct c as [[] [] [] [] [] [] [] []]; (reflexivity || discriminate). Qed.

Lemma word_chars_le (text : str) :
  (length (filter (fun c => negb (isspace c)) (clean_text text))
   <= length (remove_char " " text))%nat.
Proof.
  unfold clean_text, re_sub_delete_not, remove_char, lower.
  induction text as [|c text IH]; [reflexivity|]. cbn [map filter].
  assert (K : (isword (lower_char c) || isspace (lower_char c))
              && negb (isspace (lower_char c)) = true ->
              negb (chr_eqb c " ") = true)
    by (destruct c as [[] [] [] [] [] [] [] []]; (reflexivity || discriminate)).
  destruct (isword (lower_char c) || isspace (lower_char c)); cbn [filter].
  - destruct (negb (isspace (lower_char c))).
    + rewrite K by reflexivity. cbn [length]. lia.
    + destruct (negb (chr_eqb c " ")); cbn [length]; lia.
  - destruct (negb (chr_eqb c " ")); cbn [length]; lia.
Qed.

(** X16: how the statistics relate: there are no more words, no more
    sentences and no more paragraphs than characters other than the space,
    which are no more than the characters; the paragraph count is 0 exactly
    when the text is all whitespace, and it is at least 1 when there is a
    word. *)
Theorem get_text_stats_relations (text : str) :
  exists st,
    get_text_stats text = Ok st
    /\ 0 <= word_count st <= character_count_no_spaces st
    /\ 0 <= sentence_count st <= character_count_no_spaces st
    /\ 0 <= paragraph_count st <= character_count_no_spaces st
    /\ character_count_no_spaces st <= character_count st
    /\ (paragraph_count st = 0 <-> forallb isspace text = true)
    /\ (0 < word_count st -> 0 < paragraph_count st /\ 0 < sentence_count st).
Proof.
  eexists. split; [apply get_text_stats_ok|].
  cbn [word_count sentence_count character_count character_count_no_spaces
       paragraph_count].
  set (ns := fun c => negb (isspace c)).
  assert (B : (length (filter ns text) <= length (remove_char " " text))%nat).
  { unfold remove_char. apply filter_length_mono. apply not_space_not_blank. }
  assert (PE : filter (fun p => truthy (strip p)) (split2 "010" "010" text)
               = filter (existsb ns) (split2 "010" "010" text))
    by (apply filter_ext; intros p; apply strip_truthy).
  assert (W : (length (get_words text) <= length (remove_char " " text))%nat).
  { rewrite get_words_split.
    pose proof (length_concat_ge (split (clean_text text))) as L.
    rewrite split_concat in L. pose proof (word_chars_le text) as K.
    assert (Forall (fun l : list ascii => l <> []) (split (clean_text text))).
    { pose proof (split_words (clean_text text)) as F.
      rewrite Forall_forall in F |- *. intros w Hw. now apply F. }
    exact (Nat.le_trans _ _ _ (L H) K). }
  assert (S : (length (get_sentences text) <= length (remove_char " " text))%nat).
  { unfold get_sentences. rewrite length_map.
    rewrite (filter_ext _ (existsb ns)) by (intros p; apply strip_truthy).
    pose proof (marked_pieces_le ns (re_split_runs is_terminator text)) as M.
    rewrite re_split_runs_concat in M.
    assert (M2 : (length (filter ns (filter (fun c => negb (is_terminator c)) text))
                  <= length (filter ns text))%nat).
    { clear. induction text as [|c t IH]; [reflexivity|]. cbn [filter].
      destruct (negb (is_terminator c)); cbn [filter]; destruct (ns c);
        cbn [length]; lia. }
    exact (Nat.le_trans _ _ _ M (Nat.le_trans _ _ _ M2 B)). }
  assert (P : (length (filter (fun p => truthy (strip p)) (split2 "010" "010" text))
               <= length (remove_char " " text))%nat).
  { rewrite PE.
    pose proof (marked_pieces_le ns (split2 "010" "010" text)) as M.
    pose proof (split2_concat_le ns "010" "010" text) as M1.
    exact (Nat.le_trans _ _ _ M (Nat.le_trans _ _ _ M1 B)). }
  assert (Z0 : length (filter (fun p => truthy (strip p)) (split2 "010" "010" text)) = 0%nat
               <-> forallb isspace text = true).
  { rewrite PE. split.
    - intros E. apply forallb_forall. intros c Hc.
      destruct (isspace c) eqn:Hs; [reflexivity|]. exfalso.
      destruct (split2_covers "010" "010" text c Hc) as [K | [-> | ->]];
        [|discriminate Hs | discriminate Hs].
      apply in_concat in K as (p & Hp & Hcp).
      assert (In p (filter (existsb ns) (split2 "010" "010" text))).
      { apply filter_In. split; [assumption|]. apply existsb_exists.
        exists c. split; [assumption|]. unfold ns. now rewrite Hs. }
      destruct (filter (existsb ns) (split2 "010" "010" text)); [contradiction | discriminate].
    - intros A. rewrite forallb_forall in A. rewrite filter_none; [reflexivity|].
      intros p Hp. destruct (existsb ns p) eqn:E; [|reflexivity].
      apply existsb_exists in E as (c & Hc & Q). unfold ns in Q.
      assert (In c text) by (apply (split2_within "010" "010"); apply in_concat; now exists p).
      rewrite (A c) in Q by assumption. discriminate. }
  unfold len in *.
  split; [lia|]. split; [lia|]. split; [lia|].
  split; [pose proof (filter_length_le (fun x => negb (chr_eqb x " ")) text);
          unfold remove_char; lia|].
  split.
  - rewrite <- Z0. lia.
  - intros Hw. assert (N : get_words text <> []) by (destruct (get_words text);
      [cbn in Hw; lia | discriminate]).
    split.
    + assert (length (filter (fun p => truthy (strip p)) (split2 "010" "010" text)) <> 0%nat);
        [|lia].
      rewrite Z0. intros A. rewrite forallb_forall in A.
      apply get_words_nonempty in N as (c & Hc & Hcw).
      apply word_char_survives in Hcw as (Hs & _). rewrite (A c Hc) in Hs. discriminate.
    + apply words_have_sentence in N. destruct (get_sentences text); [congruence|].
      cbn [length]. lia.
Qed.

(** X17: analysing a stored document analyses its content: for every
    document of a store the operations reach, [analyze_document] on its id
    answers, without changing the store, with its id, title, author and
    category, with the sentiment, readability and statistics of its content,
    with the keywords of its content for the limit 10, at most 10 of them, and
    with the time of the call. *)
Theorem analyze_stored_document (clock : nat -> str) (ops : list Spec.op) (now : str) :
  let store := Spec.run clock ops in
  Forall (fun doc =>
            exists a,
              analyze_document store (id doc) now = (Ok (AnalysisPayload a), store)
              /\ a_document_id a = id doc
              /\ a_title a = title doc
              /\ a_author a = author doc
              /\ a_category a = category doc
              /\ analyze_sentiment (content doc) = Ok (a_sentiment a)
              /\ extract_keywords (content doc) 10 = Ok (a_keywords a)
              /\ calculate_readability (content doc) = Ok (a_readability a)
              /\ get_text_stats (content doc) = Ok (a_stats a)
              /\ a_timestamp a = now
              /\ (length (a_keywords a) <= 10)%nat)
         (get_all_documents store).
Proof.
  intros store. pose proof (run_sequential clock ops) as S. fold store in S.
  apply Forall_forall. intros doc H.
  unfold analyze_document. rewrite (sequential_get store _ doc S H).
  destruct (analyze_sentiment_total (content doc)) as (r1 & E1).
  destruct (calculate_readability_total (content doc)) as (r3 & E3).
  rewrite E1, E3, extract_keywords_ok, get_text_stats_ok. cbn [bind].
  eexists. split; [reflexivity|].
  cbn [a_document_id a_title a_author a_category a_sentiment a_keywords a_readability
       a_stats a_timestamp].
  repeat (split; [reflexivity|]).
  rewrite length_map. unfold most_common. apply firstn_le_length.
Qed.

(** X18: readability and statistics agree on the sentence length: on a text
    with a word, the [avg_sentence_length] of [readability] and the
    [avg_words_per_sentence] of [stats] are the same number, the words per
    sentence rounded to 2 decimals. *)
Theorem sentence_length_agrees (text : str) :
  get_words text <> [] ->
  exists r st,
    calculate_readability text = Ok r
    /\ get_text_stats text = Ok st
    /\ avg_sentence_length r = avg_words_per_sentence st
    /\ avg_sentence_length r = Float (float_round (Spec.words_per_sentence text) 2).
Proof.
  intros H. eexists. eexists. split; [now apply calculate_readability_ok|].
  split; [apply get_text_stats_ok|].
  cbn [avg_sentence_length avg_words_per_sentence].
  apply words_have_sentence, truthy_iff in H. rewrite H. now split.
Qed.

Lemma sentence_length_agrees_witness :
  get_words "The cat sat on the mat. It was happy." <> []
  /\ exists r st,
       calculate_readability "The cat sat on the mat. It was happy." = Ok r
       /\ get_text_stats "The cat sat on the mat. It was happy." = Ok st
       /\ avg_sentence_length r = avg_words_per_sentence st
       /\ avg_sentence_length r = Float 4.5.
Proof.
  assert (H : get_words "The cat sat on the mat. It was happy." <> [])
    by (vm_compute; discriminate).
  split; [exact H|].
  destruct (sentence_length_agrees _ H) as (r & st & E1 & E2 & E3 & E4).
  exists r, st. repeat split; assumption.
Defined.

(** X19: the difficulty is read off the score before it is rounded, so it
    can differ from the bucket of the score that is returned: a text of 12
    words, 7 sentences and 22 syllables scores 49.995..., is returned with
    reading ease 50.0 and is labelled "difficult", the label of scores below
    50. *)
Theorem difficulty_before_rounding :
  exists r,
    calculate_readability Spec.borderline_text = Ok r
    /\ len (get_words Spec.borderline_text) = 12
    /\ len (get_sentences Spec.borderline_text) = 7
    /\ sum (map count_syllables (get_words Spec.borderline_text)) = 22
    /\ (Spec.reading_ease Spec.borderline_text <? 50)%float = true
    /\ flesch_reading_ease r = Float 50
    /\ difficulty r = "difficult"
    /\ difficulty_of (flesch_reading_ease r) = "fairly difficult".
Proof.
  eexists. split; [vm_compute; reflexivity|]. repeat split.
Qed.

Lemma dict_get_Some {V : Type} (d : dict V) (k : str) (v : V) :
  dict_get d k = Some v -> In (k, v) d.
Proof.
  induction d as [|[k' v'] d IH]; cbn [dict_get In]; [discriminate|].
  destruct (str_eqb k' k) eqn:E.
  - apply str_eqb_eq in E. intros [= ->]. left. now subst.
  - intros H. right. now apply IH.
Qed.

(** X20: [get] matches ids exactly: in a store holding N documents it
    finds a document for the decimal strings of 1..N and for nothing else (not
    for "0", for N+1, nor for another spelling of a number such as "01"), and
    the document it finds carries the id it was asked for. *)
Theorem get_document_exact (clock : nat -> str) (ops : list Spec.op) (doc_id : str) :
  let store := Spec.run clock ops in
  let N := (16 + Spec.adds ops)%nat in
  ((exists doc, get_document store doc_id = Some doc)
   <-> exists n, 1 <= n <= Z.of_nat N /\ doc_id = str_of_int n)
  /\ (forall doc, get_document store doc_id = Some doc ->
                  id doc = doc_id /\ In doc (get_all_documents store))
  /\ get_document store "0" = None
  /\ get_document store "01" = None
  /\ get_document store (str_of_int (Z.of_nat N + 1)) = None.
Proof.
  intros store N. pose proof (run_sequential clock ops) as S. fold store N in S.
  destruct S as (Hn & Hk & Hid).
  assert (K : In doc_id (Spec.decimals N)
              <-> exists n, 1 <= n <= Z.of_nat N /\ doc_id = str_of_int n).
  { unfold Spec.decimals. rewrite in_map_iff. split.
    - intros (i & <- & Hi). apply in_seq in Hi. exists (Z.of_nat i). split; [lia | reflexivity].
    - intros (n & Hn' & ->). exists (Z.to_nat n). split; [f_equal; lia|].
      apply in_seq. lia. }
  assert (G : forall k, ~ In k (Spec.decimals N) -> get_document store k = None).
  { intros k Hk'. apply dict_get_None. now rewrite Hk. }
  assert (Z0 : forall k, (forall n, 1 <= n <= Z.of_nat N -> k <> str_of_int n) ->
                         get_document store k = None).
  { intros k Hne. apply G. unfold Spec.decimals. rewrite in_map_iff.
    intros (i & E & Hi). apply in_seq in Hi. apply (Hne (Z.of_nat i)); [lia | now symmetry]. }
  split; [|split; [|split; [|split]]].
  - rewrite <- K, <- Hk. split.
    + intros (doc & E). apply dict_get_Some in E. apply in_map_iff. now exists (doc_id, doc).
    + intros H. destruct (get_document store doc_id) as [doc|] eqn:E; [now exists doc|].
      apply dict_get_None in E. contradiction.
  - intros doc E. apply dict_get_Some in E. rewrite Forall_forall in Hid.
    split; [exact (Hid _ E)|]. unfold get_all_documents, values.
    apply in_map_iff. now exists (doc_id, doc).
  - apply Z0. intros n Hn' E. change (String.list_ascii_of_string "0") with (str_of_int 0) in E.
    apply str_of_int_inj in E. lia.
  - apply Z0. intros n Hn' E. pose proof E as E'. unfold str_of_int in E'.
    apply (f_equal String.string_of_list_ascii) in E'.
    rewrite !String.string_of_list_ascii_of_string in E'.
    apply (f_equal NilEmpty.int_of_string) in E'. rewrite NilEmpty.isi in E'.
    injection E' as E'. apply (f_equal Z.of_int) in E'.
    rewrite DecimalZ.of_to in E'. subst n. discriminate E.
  - apply G. apply decimals_fresh.
Qed.
